(** * EchoMotion video utilities: [clip_video.py] and [transform_video.py]

    A shallow embedding of the two batch scripts under [static/videos] and
    the properties of their scanner, destination computation and
    per-file transcode step.

    Modelling conventions.
    - A Python [str] is a [list ascii]; [lower] is the ASCII case mapping
      (file names outside ASCII are outside the model).
    - [os.path] is [posixpath].
    - The file system is a finite map from paths to file contents; the
      directory tree that [os.walk] enumerates is a [tree].
    - [print], [subprocess.run], [shutil.move] and [os.remove] are recorded
      in a chronological event log carried by the state.
    - Python exceptions are the [inl] results of a state-and-error monad. *)

From Stdlib Require Import Ascii String ZArith List Lia DecimalString Decimal.
From stdpp Require Import gmap strings list.

Local Open Scope char_scope.
Local Open Scope list_scope.

(** ** Python strings *)

Abbreviation str := (list ascii).

(** A string literal as a [str]. *)
Definition lit (x : string) : str := list_ascii_of_string x.

Module Py.

(** [str.lower] on one character. *)
Definition lower_char (c : ascii) : ascii :=
  let n := nat_of_ascii c in
  if (65 <=? n)%nat && (n <=? 90)%nat then ascii_of_nat (n + 32) else c.

(** [s.lower()] *)
Definition lower (x : str) : str := map lower_char x.

(** [s.startswith(p)] *)
Fixpoint startswith (x p : str) : bool :=
  match p, x with
  | [], _ => true
  | _ :: _, [] => false
  | b :: p', a :: x' => if decide (a = b) then startswith x' p' else false
  end.

(** [s.endswith(p)] *)
Definition endswith (x p : str) : bool := startswith (rev x) (rev p).

(** [sub in s] *)
Fixpoint contains (sub x : str) : bool :=
  startswith x sub ||
  match x with
  | [] => false
  | _ :: x' => contains sub x'
  end.

(** Split at the last occurrence of [c]: [rsplit c x = Some (b, a)] is
    [x[:i], x[i+1:]] for [i = x.rfind(c)], and [None] is [rfind]'s [-1]. *)
Fixpoint rsplit (c : ascii) (x : str) : option (str * str) :=
  match x with
  | [] => None
  | a :: x' =>
      match rsplit c x' with
      | Some (b, r) => Some (a :: b, r)
      | None => if decide (a = c) then Some ([], x') else None
      end
  end.

(** [str(n)] for an [int]. *)
Definition str_of_Z (n : Z) : str :=
  list_ascii_of_string (NilZero.string_of_int (Z.to_int n)).

End Py.

(** ** [posixpath] *)

Module Path.
Import Py.

Definition sep : ascii := "/".
Definition extsep : ascii := ".".

(** [os.path.join(a, b)] *)
Definition join (a b : str) : str :=
  if startswith b [sep] then b
  else if decide (a = []) then b
  else if endswith a [sep] then a ++ b
  else a ++ sep :: b.

(** [p[:p.rfind('/') + 1]] and [p[p.rfind('/') + 1:]] *)
Definition split_last_sep (p : str) : str * str :=
  match rsplit sep p with
  | Some (b, r) => (b ++ [sep], r)
  | None => ([], p)
  end.

(** [os.path.basename(p)] *)
Definition basename (p : str) : str := snd (split_last_sep p).

(** [head.rstrip('/')] *)
Fixpoint rstrip_sep (x : str) : str :=
  match x with
  | [] => []
  | a :: x' =>
      match rstrip_sep x' with
      | [] => if decide (a = sep) then [] else [a]
      | r => a :: r
      end
  end.

(** [os.path.dirname(p)] *)
Definition dirname (p : str) : str :=
  let head := fst (split_last_sep p) in
  if forallb (fun c => bool_decide (c = sep)) head then head
  else rstrip_sep head.

(** [os.path.splitext(p)]: the extension starts at the last dot of the
    last path component, unless that component has only dots before it. *)
Definition splitext (p : str) : str * str :=
  let (head, name) := split_last_sep p in
  match rsplit extsep name with
  | Some (b, r) =>
      if forallb (fun c => bool_decide (c = extsep)) b then (p, [])
      else (head ++ b, extsep :: r)
  | None => (p, [])
  end.

End Path.

(** ** The world the scripts run in *)

(** The directory tree below a root, as [os.walk] enumerates it: the names
    of the non-directory entries and the sub-directories that are walked
    (symbolic links to directories are not followed, so they are absent). *)
#[local] Unset Elimination Schemes.
Inductive tree : Type :=
| Dir (filenames : list str) (dirs : list (str * tree)).
#[local] Set Elimination Schemes.

(** Induction over a tree with the hypothesis for every sub-directory. *)
Fixpoint tree_ind (P : tree -> Prop)
    (step : forall filenames dirs,
        Forall (fun d => P d.2) dirs -> P (Dir filenames dirs))
    (t : tree) {struct t} : P t :=
  match t with
  | Dir filenames dirs =>
      step filenames dirs
        ((fix all (ds : list (str * tree)) : Forall (fun d => P d.2) ds :=
            match ds with
            | [] => @List.Forall_nil _ (fun d => P d.2)
            | d :: ds' =>
                @List.Forall_cons _ (fun d => P d.2) d ds'
                  (tree_ind P step d.2) (all ds')
            end) dirs)
  end.

(** [os.walk(top)], top-down: one [(dirpath, dirnames, filenames)] triple
    per directory. *)
Fixpoint walk (top : str) (t : tree) : list (str * list str * list str) :=
  match t with
  | Dir filenames dirs =>
      (top, map fst dirs, filenames)
        :: (fix walk_dirs (ds : list (str * tree)) :=
              match ds with
              | [] => []
              | (d, sub) :: ds' => walk (Path.join top d) sub ++ walk_dirs ds'
              end) dirs
  end.

(** What one call of the external encoder did.
    - [Completed output]: exit status 0, and [output] is now the content of
      the output path;
    - [Failed returncode stderr partial]: non-zero exit status, and
      [partial] is what the encoder left at the output path, if it wrote
      there at all;
    - [NotFound]: no [ffmpeg] executable on the search path. *)
Inductive outcome : Type :=
| Completed (output : str)
| Failed (returncode : Z) (stderr : str) (partial : option str)
| NotFound.

(** The collaborators of the scripts. *)
Record env : Type := Env {
  (** the external encoder, a function of its argument list and of the
      files it can read *)
  ffmpeg : list str -> gmap str str -> outcome;
  (** [tempfile.gettempdir()] *)
  gettempdir : str;
  (** the directory found at a path in a given file system: [None] when
      [os.path.isdir] is false *)
  directory : gmap str str -> str -> option tree
}.

Inductive event : Type :=
| Print (line : str)
| Walk (top : str)
| Run (command : list str)
| Move (src dst : str)
| Remove (path : str).

Record world : Type := World {
  files : gmap str str;
  log : list event
}.

Definition emit (e : event) (w : world) : world :=
  {| files := files w; log := log w ++ [e] |}.

Definition with_files (f : gmap str str) (w : world) : world :=
  {| files := f; log := log w |}.

(** ** Exceptions and effects *)

Inductive exn : Type :=
| CalledProcessError (returncode : Z) (stderr : str)
| FileNotFoundError
| SystemExit.

Definition M (A : Type) : Type := world -> (exn + A) * world.

Definition ret {A} (a : A) : M A := fun w => (inr a, w).

Definition raise {A} (e : exn) : M A := fun w => (inl e, w).

Definition bind {A B} (m : M A) (k : A -> M B) : M B :=
  fun w =>
    match m w with
    | (inr a, w') => k a w'
    | (inl e, w') => (inl e, w')
    end.

Notation "'let*' x ':=' m 'in' k" := (bind m (fun x => k))
  (at level 10, x name, m at level 100, k at level 200).
Notation "m >> k" := (bind m (fun _ => k))
  (at level 90, right associativity).

(** [try: body except ...: handler]; a handler of [None] lets the exception
    propagate. *)
Definition try_except {A} (body : M A) (handler : exn -> option (M A)) : M A :=
  fun w =>
    match body w with
    | (inr a, w') => (inr a, w')
    | (inl e, w') =>
        match handler e with
        | Some h => h w'
        | None => (inl e, w')
        end
    end.

(** [for x in l: body(x)] *)
Fixpoint for_each {A} (l : list A) (body : A -> M unit) : M unit :=
  match l with
  | [] => ret tt
  | x :: l' => body x >> for_each l' body
  end.

Definition print (line : str) : M unit := fun w => (inr tt, emit (Print line) w).

(** The built-in [exit()] raises [SystemExit]. *)
Definition exit {A} : M A := raise SystemExit.

Section Effects.
Context (E : env).

(** [subprocess.run(command, check=True, capture_output=True, text=True)].
    The encoder writes to its last argument only. *)
Definition subprocess_run (command : list str) : M unit :=
  fun w =>
    let out := List.last command [] in
    let w' := emit (Run command) w in
    match ffmpeg E command (files w) with
    | Completed d => (inr tt, with_files (<[out := d]> (files w)) w')
    | Failed rc err None => (inl (CalledProcessError rc err), w')
    | Failed rc err (Some d) =>
        (inl (CalledProcessError rc err), with_files (<[out := d]> (files w)) w')
    | NotFound => (inl FileNotFoundError, w')
    end.

(** [os.path.isdir(p)] *)
Definition os_path_isdir (p : str) : M bool :=
  fun w => (inr (bool_decide (is_Some (directory E (files w) p))), w).

(** [os.walk(top)], consumed to the end; nothing is yielded when [top] is
    not a directory. *)
Definition os_walk (top : str) : M (list (str * list str * list str)) :=
  fun w =>
    (inr match directory E (files w) top with
         | Some t => walk top t
         | None => []
         end,
     emit (Walk top) w).

End Effects.

(** [os.path.exists(p)] *)
Definition os_path_exists (p : str) : M bool :=
  fun w => (inr (bool_decide (is_Some (files w !! p))), w).

(** [os.remove(p)] *)
Definition os_remove (p : str) : M unit :=
  fun w =>
    match files w !! p with
    | Some _ => (inr tt, emit (Remove p) (with_files (delete p (files w)) w))
    | None => (inl FileNotFoundError, w)
    end.

(** [shutil.move(src, dst)] for a file [src]; an existing [dst] is replaced. *)
Definition shutil_move (src dst : str) : M unit :=
  fun w =>
    match files w !! src with
    | Some d =>
        (inr tt, emit (Move src dst) (with_files (<[dst := d]> (delete src (files w))) w))
    | None => (inl FileNotFoundError, w)
    end.


(** ** [clip_video.py] *)

Module ClipVideo.
Import Py Path.

(** The two paths chosen at the start of [crop_video_top_half]:
    [(temp_output_path, output_path_final)]. *)
Definition output_paths (temp_dir input_path : str) (overwrite : bool)
  : str * str :=
  if overwrite then
    (join temp_dir (lit "temp_crop_" ++ basename input_path), input_path)
  else
    let (base, ext) := splitext input_path in
    let output_path_final := base ++ lit "_cropped" ++ ext in
    (output_path_final, output_path_final).

Definition command (input_path temp_output_path : str) : list str :=
  [ lit "ffmpeg";
    lit "-y";
    lit "-i"; input_path;
    lit "-vf"; lit "crop=iw:ih/2:0:0";
    lit "-c:v"; lit "libx264";
    lit "-pix_fmt"; lit "yuv420p";
    lit "-preset"; lit "fast";
    lit "-crf"; lit "18";
    lit "-movflags"; lit "+faststart";
    lit "-an";
    temp_output_path ].

(** The file test of the collecting loop: [true] when the path is
    appended, [false] when the file is passed over. *)
Definition selected (exclude_keyword : str) (overwrite : bool)
    (filename : str) : bool :=
  if endswith (lower filename) (lit ".mp4")
     && negb (contains (lower exclude_keyword) (lower filename))
  then
    if negb overwrite && endswith (lower filename) (lit "_cropped.mp4")
    then false
    else true
  else false.

(** The collecting loop over [os.walk]. *)
Definition collect (exclude_keyword : str) (overwrite : bool)
    (entries : list (str * list str * list str)) : list str :=
  flat_map
    (fun '(dirpath, _, filenames) =>
       flat_map
         (fun filename =>
            if selected exclude_keyword overwrite filename
            then [join dirpath filename]
            else [])
         filenames)
    entries.

Section WithEnv.
Context (E : env).

Definition crop_video_top_half (input_path : str) (overwrite : bool) : M unit :=
  print (lit "Processing: " ++ input_path) >>
  let (temp_output_path, output_path_final) :=
    output_paths (gettempdir E) input_path overwrite in
  let command := command input_path temp_output_path in
  try_except
    (subprocess_run E command >>
     if overwrite then
       shutil_move temp_output_path output_path_final >>
       print (lit "SUCCESS: Cropped and overwrote original file -> " ++ output_path_final)
     else
       print (lit "SUCCESS: Saved cropped video to -> " ++ output_path_final))
    (fun e =>
       match e with
       | CalledProcessError returncode stderr =>
           Some
             (print (lit "ERROR processing " ++ input_path ++ lit ":") >>
              print (lit "  Return code: " ++ str_of_Z returncode) >>
              print (lit "  Stderr: " ++ stderr) >>
              if overwrite then
                let* there := os_path_exists temp_output_path in
                if there then os_remove temp_output_path else ret tt
              else ret tt)
       | FileNotFoundError =>
           Some
             (print (lit "ERROR: ffmpeg command not found. Is FFmpeg installed and in your system's PATH?")
              >> exit)
       | SystemExit => None
       end).

Definition find_and_crop_videos (root_dir exclude_keyword : str) (overwrite : bool) : M unit :=
  let* is_dir := os_path_isdir E root_dir in
  if negb is_dir then
    print (lit "Error: Directory '" ++ root_dir ++ lit "' not found.")
  else
    print (lit "Starting to search for '*.mp4' files without '"
             ++ exclude_keyword ++ lit "' in '" ++ root_dir ++ lit "'...") >>
    (if overwrite
     then print (lit "WARNING: Overwrite mode is enabled. Original files will be replaced.")
     else ret tt) >>
    let* entries := os_walk E root_dir in
    let video_paths_to_process := collect exclude_keyword overwrite entries in
    if decide (video_paths_to_process = []) then
      print (lit "No matching video files found to crop.")
    else
      print (lit "Found "
               ++ str_of_Z (Z.of_nat (length video_paths_to_process))
               ++ lit " video(s) to process.") >>
      for_each video_paths_to_process
        (fun path => crop_video_top_half path overwrite) >>
      print ("010"%char :: lit "Processing complete.").

End WithEnv.

End ClipVideo.

(** ** [transform_video.py] *)

Module TransformVideo.
Import Py Path.

(** The two paths chosen at the start of [re_encode_video]:
    [(temp_output_path, output_path_final)]. *)
Definition output_paths (temp_dir input_path : str) (overwrite : bool)
  : str * str :=
  if overwrite then
    (join temp_dir (lit "temp_" ++ basename input_path), input_path)
  else
    let (base, ext) := splitext input_path in
    let output_path_final := base ++ lit "_new" ++ ext in
    (output_path_final, output_path_final).

Definition command (input_path temp_output_path : str) : list str :=
  [ lit "ffmpeg";
    lit "-y";
    lit "-i"; input_path;
    lit "-c:v"; lit "libx264";
    lit "-pix_fmt"; lit "yuv420p";
    lit "-preset"; lit "fast";
    lit "-crf"; lit "18";
    lit "-movflags"; lit "+faststart";
    lit "-an";
    temp_output_path ].

(** The file test of the collecting loop: [true] when the path is
    appended, [false] when the file is passed over. *)
Definition selected (keyword : str) (overwrite : bool)
    (filename : str) : bool :=
  if endswith (lower filename) (lit ".mp4")
     && contains (lower keyword) (lower filename)
  then
    if negb overwrite && endswith (lower filename) (lit "_new.mp4")
    then false
    else true
  else false.

(** The collecting loop over [os.walk]. *)
Definition collect (keyword : str) (overwrite : bool)
    (entries : list (str * list str * list str)) : list str :=
  flat_map
    (fun '(dirpath, _, filenames) =>
       flat_map
         (fun filename =>
            if selected keyword overwrite filename
            then [join dirpath filename]
            else [])
         filenames)
    entries.

Section WithEnv.
Context (E : env).

Definition re_encode_video (input_path : str) (overwrite : bool) : M unit :=
  print (lit "Processing: " ++ input_path) >>
  let (temp_output_path, output_path_final) :=
    output_paths (gettempdir E) input_path overwrite in
  let command := command input_path temp_output_path in
  try_except
    (subprocess_run E command >>
     if overwrite then
       shutil_move temp_output_path output_path_final >>
       print (lit "SUCCESS: Overwrote original file -> " ++ output_path_final)
     else
       print (lit "SUCCESS: Saved re-encoded video to -> " ++ output_path_final))
    (fun e =>
       match e with
       | CalledProcessError returncode stderr =>
           Some
             (print (lit "ERROR processing " ++ input_path ++ lit ":") >>
              print (lit "  Return code: " ++ str_of_Z returncode) >>
              print (lit "  Stderr: " ++ stderr) >>
              if overwrite then
                let* there := os_path_exists temp_output_path in
                if there then os_remove temp_output_path else ret tt
              else ret tt)
       | FileNotFoundError =>
           Some
             (print (lit "ERROR: ffmpeg command not found. Is FFmpeg installed and in your system's PATH?")
              >> exit)
       | SystemExit => None
       end).

Definition find_and_process_videos (root_dir keyword : str) (overwrite : bool) : M unit :=
  let* is_dir := os_path_isdir E root_dir in
  if negb is_dir then
    print (lit "Error: Directory '" ++ root_dir ++ lit "' not found.")
  else
    print (lit "Starting to search for '*.mp4' files with '"
             ++ keyword ++ lit "' in '" ++ root_dir ++ lit "'...") >>
    (if overwrite
     then print (lit "WARNING: Overwrite mode is enabled. Original files will be replaced.")
     else ret tt) >>
    let* entries := os_walk E root_dir in
    let video_paths_to_process := collect keyword overwrite entries in
    if decide (video_paths_to_process = []) then
      print (lit "No matching video files found.")
    else
      print (lit "Found "
               ++ str_of_Z (Z.of_nat (length video_paths_to_process))
               ++ lit " video(s) to process.") >>
      for_each video_paths_to_process
        (fun path => re_encode_video path overwrite) >>
      print ("010"%char :: lit "Processing complete.").

End WithEnv.

End TransformVideo.

(** ** The two pipelines side by side *)

Inductive pipeline : Type := Crop | Transform.

(** The suffix of COPY mode. *)
Definition suffix (pl : pipeline) : str :=
  match pl with Crop => lit "_cropped" | Transform => lit "_new" end.

(** The prefix of the temporary file of OVERWRITE mode. *)
Definition temp_prefix (pl : pipeline) : str :=
  match pl with Crop => lit "temp_crop_" | Transform => lit "temp_" end.

Definition output_paths (pl : pipeline) : str -> str -> bool -> str * str :=
  match pl with
  | Crop => ClipVideo.output_paths
  | Transform => TransformVideo.output_paths
  end.

Definition command (pl : pipeline) : str -> str -> list str :=
  match pl with
  | Crop => ClipVideo.command
  | Transform => TransformVideo.command
  end.

Definition selected (pl : pipeline) : str -> bool -> str -> bool :=
  match pl with
  | Crop => ClipVideo.selected
  | Transform => TransformVideo.selected
  end.

Definition collect (pl : pipeline)
  : str -> bool -> list (str * list str * list str) -> list str :=
  match pl with
  | Crop => ClipVideo.collect
  | Transform => TransformVideo.collect
  end.

(** The per-file step of a pipeline. *)
Definition transcode (E : env) (pl : pipeline) : str -> bool -> M unit :=
  match pl with
  | Crop => ClipVideo.crop_video_top_half E
  | Transform => TransformVideo.re_encode_video E
  end.

(** The entry point of a pipeline. *)
Definition find_and_run (E : env) (pl : pipeline) : str -> str -> bool -> M unit :=
  match pl with
  | Crop => ClipVideo.find_and_crop_videos E
  | Transform => TransformVideo.find_and_process_videos E
  end.

(** The temporary path, the final path and the argument list of the job
    for one input path. *)
Definition temp_path (E : env) (pl : pipeline) (overwrite : bool) (p : str) : str :=
  fst (output_paths pl (gettempdir E) p overwrite).

Definition destination_path (pl : pipeline) (overwrite : bool) (p : str) : str :=
  snd (output_paths pl [] p overwrite).

Definition job_command (E : env) (pl : pipeline) (overwrite : bool) (p : str)
  : list str :=
  command pl p (temp_path E pl overwrite p).

(** The name a COPY-mode job gives to the output of the file [filename]. *)
Definition output_name (pl : pipeline) (filename : str) : str :=
  destination_path pl false filename.

(** ** Vocabulary of the properties *)

(** The polarity of the keyword test: absent for the crop pipeline, present
    for the transform pipeline. *)
Definition keyword_ok (pl : pipeline) (keyword filename : str) : bool :=
  match pl with
  | Crop => negb (Py.contains (Py.lower keyword) (Py.lower filename))
  | Transform => Py.contains (Py.lower keyword) (Py.lower filename)
  end.

Definition is_mp4 (filename : str) : bool :=
  Py.endswith (Py.lower filename) (lit ".mp4").

(** The file name carries the output suffix of the pipeline. *)
Definition is_own_output (pl : pipeline) (filename : str) : bool :=
  Py.endswith (Py.lower filename) (suffix pl ++ lit ".mp4").

(** The files of a tree, each with the path of its directory. *)
Definition file_entries (top : str) (t : tree) : list (str * str) :=
  flat_map (fun '(dirpath, _, filenames) => map (pair dirpath) filenames)
           (walk top t).

(** The encoder invocations recorded in a log, oldest first. *)
Definition attempts (l : list event) : list (list str) :=
  flat_map (fun e => match e with Run c => [c] | _ => [] end) l.

(** The input path of an encoder invocation: the argument after [-i]. *)
Definition input_of (command : list str) : str := nth 3 command [].

(** A name as a directory lists it: not empty and without a separator. *)
Definition name_ok (n : str) : Prop := n <> [] /\ Path.sep ∉ n.

(** A tree as a file system presents it: proper names, and no name twice
    among the files or among the sub-directories of one directory. *)
Fixpoint tree_ok (t : tree) : Prop :=
  match t with
  | Dir filenames dirs =>
      Forall name_ok filenames /\ NoDup filenames /\
      Forall name_ok (map fst dirs) /\ NoDup (map fst dirs) /\
      (fix all_ok (ds : list (str * tree)) : Prop :=
         match ds with
         | [] => True
         | (_, sub) :: ds' => tree_ok sub /\ all_ok ds'
         end) dirs
  end.

(** What [os.path.join] puts in front of a relative second argument. *)
Definition dir_prefix (a : str) : str :=
  if decide (a = []) then []
  else if Py.endswith a [Path.sep] then a
  else a ++ [Path.sep].

(** Empty, or ending in a separator. *)
Definition dir_like (h : str) : Prop := h = [] \/ exists h', h = h' ++ [Path.sep].

Definition all_dots (x : str) : bool :=
  forallb (fun c => bool_decide (c = Path.extsep)) x.

(** The paths of all files of a tree. *)
Definition all_paths (top : str) (t : tree) : list str :=
  map (fun e => Path.join e.1 e.2) (file_entries top t).

(** The console lines of a job. *)
Definition processing_line (p : str) : event :=
  Print (lit "Processing: " ++ p).

Definition success_line (pl : pipeline) (overwrite : bool) (final : str) : event :=
  Print
    (match pl, overwrite with
     | Crop, true => lit "SUCCESS: Cropped and overwrote original file -> "
     | Crop, false => lit "SUCCESS: Saved cropped video to -> "
     | Transform, true => lit "SUCCESS: Overwrote original file -> "
     | Transform, false => lit "SUCCESS: Saved re-encoded video to -> "
     end ++ final).

Definition failure_lines (p : str) (returncode : Z) (stderr : str) : list event :=
  [ Print (lit "ERROR processing " ++ p ++ lit ":");
    Print (lit "  Return code: " ++ Py.str_of_Z returncode);
    Print (lit "  Stderr: " ++ stderr) ].

Definition not_found_line : event :=
  Print (lit "ERROR: ffmpeg command not found. Is FFmpeg installed and in your system's PATH?").

Definition no_directory_line (root_dir : str) : event :=
  Print (lit "Error: Directory '" ++ root_dir ++ lit "' not found.").

(** Whether a file is at the temporary path once the encoder has failed. *)
Definition temp_present (partial : option str) (fs : gmap str str) (temp : str)
  : bool :=
  match partial with
  | Some _ => true
  | None => bool_decide (is_Some (fs !! temp))
  end.

(** The console lines and the walk of an entry point, before the jobs. *)
Definition start_line (pl : pipeline) (root_dir keyword : str) : event :=
  Print
    (match pl with
     | Crop => lit "Starting to search for '*.mp4' files without '"
     | Transform => lit "Starting to search for '*.mp4' files with '"
     end ++ keyword ++ lit "' in '" ++ root_dir ++ lit "'...").

Definition warning_line : event :=
  Print (lit "WARNING: Overwrite mode is enabled. Original files will be replaced.").

Definition header (pl : pipeline) (root_dir keyword : str) (overwrite : bool)
  : list event :=
  start_line pl root_dir keyword
    :: (if overwrite then [warning_line] else []) ++ [Walk root_dir].

Definition no_match_line (pl : pipeline) : event :=
  Print
    match pl with
    | Crop => lit "No matching video files found to crop."
    | Transform => lit "No matching video files found."
    end.

Definition found_line (n : nat) : event :=
  Print (lit "Found " ++ Py.str_of_Z (Z.of_nat n) ++ lit " video(s) to process.").

Definition complete_line : event :=
  Print ("010"%char :: lit "Processing complete.").

(** The loop over the collected paths. *)
Definition batch (E : env) (pl : pipeline) (overwrite : bool) (paths : list str)
  : M unit :=
  for_each paths (fun path => transcode E pl path overwrite).

Definition log_more (events : list event) (w : world) : world :=
  {| files := files w; log := log w ++ events |}.

(** ** Concrete worlds *)

(** A tree with both kinds of file, earlier outputs and a sub-directory. *)
Definition sample_tree : tree :=
  Dir [lit "a.mp4"; lit "a_motion.mp4"; lit "b.txt"; lit "a_cropped.mp4"]
      [(lit "sub",
        Dir [lit "C.MP4"; lit "c_Motion_new.mp4"; lit "D_MOTION.mp4"] [])].

(** Two directories with a file of the same name. *)
Definition twin_tree : tree :=
  Dir [] [(lit "a", Dir [lit "x.mp4"] []); (lit "b", Dir [lit "x.mp4"] [])].

(** An environment with [sample_tree] at [/r], no other directory, and the
    given encoder. *)
Definition sample_env (tool : list str -> gmap str str -> outcome) : env :=
  {| ffmpeg := tool;
     gettempdir := lit "/tmp";
     directory := fun _ root =>
       if decide (root = lit "/r") then Some sample_tree else None |}.

(** An encoder that fails on [/r/a.mp4] and on [/r/a_motion.mp4], leaving a
    partial output, and succeeds on everything else. *)
Definition flaky_tool (cmd : list str) (fs : gmap str str) : outcome :=
  if decide (input_of cmd = lit "/r/a.mp4" \/ input_of cmd = lit "/r/a_motion.mp4")
  then Failed 1 (lit "Invalid data found when processing input") (Some (lit "junk"))
  else Completed (lit "video").

(** No encoder installed. *)
Definition missing_tool (cmd : list str) (fs : gmap str str) : outcome :=
  NotFound.

(** The files of [sample_tree] under [/r], and nothing printed yet. *)
Definition sample_world : world :=
  {| files :=
       list_to_map
         (map (fun p => (p, lit "original")) (all_paths (lit "/r") sample_tree));
     log := [] |}.

(** ** A second run *)

(** [after] lists the directories of [before] once a COPY-mode run of the
    pipeline is over: every directory is still there with the files it had,
    and a name that is new in a directory is the output name of a file the
    run selected in that directory. *)
Definition rerun_entries (pl : pipeline) (keyword : str)
    (before after : list (str * list str * list str)) : Prop :=
  (forall d ds fs,
      (d, ds, fs) ∈ before ->
      exists ds' fs', (d, ds', fs') ∈ after /\ forall f, f ∈ fs -> f ∈ fs') /\
  (forall d ds' fs' n,
      (d, ds', fs') ∈ after -> n ∈ fs' ->
      exists ds fs,
        (d, ds, fs) ∈ before /\
        (n ∈ fs \/
         exists f, f ∈ fs /\ selected pl keyword false f = true /\
                   n = output_name pl f)).

(** One directory with one video, before and after a COPY-mode crop run. *)
Definition single_tree : tree := Dir [lit "a.mp4"] [].
Definition single_tree_after : tree := Dir [lit "a.mp4"; lit "a_cropped.mp4"] [].

(** ** Events of a run *)

(** What a run over the collected [paths] may do: print, call the encoder
    with the command of a collected path, and, in OVERWRITE mode only, move
    the temporary file of a collected path onto that path or remove it.
    A walk is not among these. *)
Definition job_event (E : env) (pl : pipeline) (overwrite : bool)
    (paths : list str) (e : event) : Prop :=
  match e with
  | Print _ => True
  | Walk _ => False
  | Run c => exists p, p ∈ paths /\ c = job_command E pl overwrite p
  | Move src dst =>
      overwrite = true /\
      exists p, p ∈ paths /\ src = temp_path E pl true p /\ dst = p
  | Remove q =>
      overwrite = true /\ exists p, p ∈ paths /\ q = temp_path E pl true p
  end.

(** * Properties *)

(** ** Examples *)

Module PathExamples.
Import Py Path.

Example lower_mixed : lower (lit "A_Motion.MP4") = lit "a_motion.mp4".
Proof. reflexivity. Qed.

Example endswith_mp4 : endswith (lit "clip.mp4") (lit ".mp4") = true.
Proof. reflexivity. Qed.

Example endswith_short : endswith (lit "mp4") (lit ".mp4") = false.
Proof. reflexivity. Qed.

Example contains_mid : contains (lit "motion") (lit "a_motion.mp4") = true.
Proof. reflexivity. Qed.

Example contains_none : contains (lit "motion") (lit "a.mp4") = false.
Proof. reflexivity. Qed.

Example contains_empty : contains [] (lit "a.mp4") = true.
Proof. reflexivity. Qed.

Example join_plain : join (lit "/data/v") (lit "a.mp4") = lit "/data/v/a.mp4".
Proof. reflexivity. Qed.

Example join_trailing : join (lit "/data/") (lit "a.mp4") = lit "/data/a.mp4".
Proof. reflexivity. Qed.

Example join_empty : join [] (lit "a.mp4") = lit "a.mp4".
Proof. reflexivity. Qed.

Example basename_path : basename (lit "/data/v/a.mp4") = lit "a.mp4".
Proof. reflexivity. Qed.

Example basename_bare : basename (lit "a.mp4") = lit "a.mp4".
Proof. reflexivity. Qed.

Example dirname_path : dirname (lit "/data/v/a.mp4") = lit "/data/v".
Proof. reflexivity. Qed.

Example dirname_root : dirname (lit "/a.mp4") = lit "/".
Proof. reflexivity. Qed.

Example splitext_plain :
  splitext (lit "/d.x/a.b.mp4") = (lit "/d.x/a.b", lit ".mp4").
Proof. reflexivity. Qed.

Example splitext_dir_dot : splitext (lit "/d.x/abc") = (lit "/d.x/abc", []).
Proof. reflexivity. Qed.

Example splitext_hidden : splitext (lit "/d/.mp4") = (lit "/d/.mp4", []).
Proof. reflexivity. Qed.

Example splitext_dots : splitext (lit "..mp4") = (lit "..mp4", []).
Proof. reflexivity. Qed.

Example splitext_dots_then_name :
  splitext (lit "..a.mp4") = (lit "..a", lit ".mp4").
Proof. reflexivity. Qed.

Example str_of_Z_neg : str_of_Z (-9) = lit "-9".
Proof. reflexivity. Qed.

(** The scenarios of the specification: a directory with [a.mp4],
    [a_motion.mp4] and [b.txt]. *)
Example crop_scenario :
  collect Crop (lit "motion") false
    (walk (lit "/r") (Dir [lit "a.mp4"; lit "a_motion.mp4"; lit "b.txt"] []))
    = [lit "/r/a.mp4"]
  /\ destination_path Crop false (lit "/r/a.mp4") = lit "/r/a_cropped.mp4".
Proof. by split. Qed.

Example transform_scenario :
  collect Transform (lit "motion") false
    (walk (lit "/r") (Dir [lit "a.mp4"; lit "a_motion.mp4"; lit "b.txt"] []))
    = [lit "/r/a_motion.mp4"]
  /\ destination_path Transform false (lit "/r/a_motion.mp4")
       = lit "/r/a_motion_new.mp4".
Proof. by split. Qed.

Example empty_directory_scenario pl :
  collect pl (lit "motion") false (walk (lit "/r") (Dir [] [])) = [].
Proof. by destruct pl. Qed.

(** The suffix test ignores case, like the other two. *)
Example upper_case_output_skipped :
  selected Crop (lit "motion") false (lit "A_CROPPED.MP4") = false
  /\ selected Crop (lit "motion") true (lit "A_CROPPED.MP4") = true.
Proof. by split. Qed.

(** A name that is all extension has none for [splitext]. *)
Example hidden_mp4 :
  selected Crop (lit "motion") false (lit ".mp4") = true
  /\ destination_path Crop false (lit "/r/.mp4") = lit "/r/.mp4_cropped".
Proof. by split. Qed.

End PathExamples.

(** ** Strings *)

Section StringFacts.
Import Py.

Lemma startswith_spec (x p : str) :
  startswith x p = true <-> exists t, x = p ++ t.
Proof.
  revert x; induction p as [|b p IH]; intros x; simpl.
  - split; [intros _; by exists x | by destruct x].
  - destruct x as [|a x]; simpl.
    + split; [done | intros [t Ht]; discriminate].
    + case_decide; [subst a|].
      * rewrite IH. split; intros [t Ht]; exists t; simpl in *; congruence.
      * split; [done | intros [t Ht]; simpl in Ht; congruence].
Qed.

Lemma endswith_spec (x p : str) :
  endswith x p = true <-> exists h, x = h ++ p.
Proof.
  unfold endswith. rewrite startswith_spec. split.
  - intros [t Ht]. exists (rev t).
    rewrite <- (rev_involutive x), Ht, rev_app_distr.
    by rewrite rev_involutive.
  - intros [h ->]. exists (rev h). by rewrite rev_app_distr.
Qed.

Lemma endswith_false (x p : str) :
  endswith x p = false <-> forall h, x <> h ++ p.
Proof.
  rewrite <- not_true_iff_false, endswith_spec. split.
  - intros H h ->. apply H. by exists h.
  - intros H [h ->]. by apply (H h).
Qed.

Lemma contains_nil (x : str) : contains [] x = true.
Proof. by destruct x. Qed.

Lemma lower_app (x y : str) : lower (x ++ y) = lower x ++ lower y.
Proof. apply map_app. Qed.

Lemma rsplit_Some c x b r :
  rsplit c x = Some (b, r) -> x = b ++ c :: r /\ c ∉ r.
Proof.
  revert b r; induction x as [|a x IH]; intros b r; simpl; [done|].
  destruct (rsplit c x) as [[b' r']|] eqn:Hx.
  - intros [= <- <-]. destruct (IH _ _ eq_refl) as [-> Hr]. done.
  - case_decide; [subst a|done].
    intros [= <- <-]. split; [done|].
    clear IH. induction x as [|a x IH]; [apply not_elem_of_nil|].
    simpl in Hx. destruct (rsplit c x) as [[??]|]; [done|].
    case_decide; [done|].
    apply not_elem_of_cons. auto.
Qed.

Lemma rsplit_None c x : rsplit c x = None <-> c ∉ x.
Proof.
  induction x as [|a x IH]; simpl.
  - split; [intros _; apply not_elem_of_nil | done].
  - rewrite not_elem_of_cons. destruct (rsplit c x) as [[b r]|].
    + split; [done|]. intros [_ H]. destruct IH as [_ IH]. by specialize (IH H).
    + case_decide; [subst a; split; [done | by intros [? _]]|].
      split; [|done]. intros _. split; [congruence | by apply IH].
Qed.

Lemma rsplit_app c b r : c ∉ r -> rsplit c (b ++ c :: r) = Some (b, r).
Proof.
  intros Hr. induction b as [|a b IH]; simpl.
  - apply rsplit_None in Hr. rewrite Hr. by rewrite decide_True.
  - by rewrite IH.
Qed.

Lemma rsplit_app_free c x y :
  c ∉ y ->
  rsplit c (x ++ y) =
    match rsplit c x with
    | Some (b, r) => Some (b, r ++ y)
    | None => None
    end.
Proof.
  intros Hy. destruct (rsplit c x) as [[b r]|] eqn:Hx.
  - apply rsplit_Some in Hx as [-> Hr].
    rewrite <- app_assoc. simpl. apply rsplit_app.
    rewrite not_elem_of_app. done.
  - apply rsplit_None. apply rsplit_None in Hx.
    rewrite not_elem_of_app. done.
Qed.

End StringFacts.

(** ** Paths *)

(** Goals [c ∉ x ++ d :: y ++ ...] from hypotheses about the parts. *)
Ltac free_of :=
  rewrite ?not_elem_of_app, ?not_elem_of_cons, ?not_elem_of_app;
  repeat split; first [done | congruence | apply not_elem_of_nil].

(** Goals [c ∈ x ++ c :: y]. *)
Ltac free_of_elem :=
  rewrite ?elem_of_app, ?elem_of_cons; auto.

Section PathFacts.
Import Py Path.

Lemma dir_prefix_like a : dir_like (dir_prefix a).
Proof.
  unfold dir_prefix. case_decide; [by left|].
  destruct (endswith a [sep]) eqn:He.
  - apply endswith_spec in He as [h ->]. right. by exists h.
  - right. by exists a.
Qed.

Lemma startswith_sep_elem b : startswith b [sep] = true -> sep ∈ b.
Proof.
  intros Hs. apply startswith_spec in Hs as [t ->].
  apply elem_of_cons. by left.
Qed.

Lemma join_dir_prefix a b : sep ∉ b -> join a b = dir_prefix a ++ b.
Proof.
  intros Hb. unfold join, dir_prefix.
  destruct (startswith b [sep]) eqn:Hs.
  { by apply startswith_sep_elem in Hs. }
  case_decide; [done|]. destruct (endswith a [sep]); [done|].
  by rewrite <- app_assoc.
Qed.

Lemma split_last_sep_spec p head name :
  split_last_sep p = (head, name) ->
  p = head ++ name /\ (sep ∉ name) /\ dir_like head.
Proof.
  unfold split_last_sep. destruct (rsplit sep p) as [[b r]|] eqn:Hp.
  - intros [= <- <-]. apply rsplit_Some in Hp as [-> Hr].
    rewrite <- app_assoc. repeat split; [done|]. right. by exists b.
  - intros [= <- <-]. apply rsplit_None in Hp. repeat split; [done|]. by left.
Qed.

Lemma split_last_sep_app head name :
  dir_like head -> sep ∉ name -> split_last_sep (head ++ name) = (head, name).
Proof.
  intros [->|[h ->]] Hn; unfold split_last_sep; simpl.
  - apply rsplit_None in Hn. by rewrite Hn.
  - rewrite <- app_assoc. simpl. by rewrite rsplit_app.
Qed.

Lemma basename_join a b : sep ∉ b -> basename (join a b) = b.
Proof.
  intros Hb. rewrite join_dir_prefix by done. unfold basename.
  rewrite split_last_sep_app; [done | apply dir_prefix_like | done].
Qed.

Lemma splitext_sound p base ext : splitext p = (base, ext) -> base ++ ext = p.
Proof.
  unfold splitext. destruct (split_last_sep p) as [head name] eqn:Hp.
  apply split_last_sep_spec in Hp as (-> & _ & _).
  destruct (rsplit extsep name) as [[b r]|] eqn:Hn.
  - apply rsplit_Some in Hn as [-> _].
    destruct (forallb _ b); intros [= <- <-];
      [apply app_nil_r | by rewrite <- app_assoc].
  - intros [= <- <-]. apply app_nil_r.
Qed.

(** The extension is cut from the last component only. *)
Lemma splitext_head head name :
  dir_like head -> sep ∉ name ->
  splitext (head ++ name) =
    (head ++ fst (splitext name), snd (splitext name)).
Proof.
  intros Hh Hn. unfold splitext.
  rewrite split_last_sep_app by done.
  assert (split_last_sep name = ([], name)) as ->.
  { apply (split_last_sep_app [] name); [by left | done]. }
  destruct (rsplit extsep name) as [[b r]|]; [|done].
  by destruct (forallb _ b).
Qed.

(** Text without separator or dot, put between stem and extension, ends
    up in the stem. *)
Lemma splitext_infix p base ext sfx :
  sep ∉ sfx -> extsep ∉ sfx ->
  splitext p = (base, ext) ->
  splitext (base ++ sfx ++ ext) = (base ++ sfx, ext) /\
  fst (split_last_sep (base ++ sfx ++ ext)) = fst (split_last_sep p).
Proof.
  intros Hs Hd. unfold splitext.
  destruct (split_last_sep p) as [head name] eqn:Hp.
  apply split_last_sep_spec in Hp as (-> & Hn & Hh).
  destruct (rsplit extsep name) as [[b r]|] eqn:Hr.
  - apply rsplit_Some in Hr as [-> Hr].
    apply not_elem_of_app in Hn as [Hb Hn].
    apply not_elem_of_cons in Hn as [_ Hn].
    destruct (forallb _ b) eqn:Hb'; intros [= <- <-].
    + rewrite app_nil_r, <- !app_assoc. simpl.
      rewrite (split_last_sep_app head (b ++ extsep :: r ++ sfx))
        by (done || free_of).
      rewrite (rsplit_app extsep b (r ++ sfx)) by free_of.
      by rewrite Hb'.
    + rewrite <- !app_assoc.
      rewrite (split_last_sep_app head (b ++ sfx ++ extsep :: r))
        by (done || free_of).
      rewrite (app_assoc b sfx), rsplit_app by done.
      rewrite forallb_app, Hb'. done.
  - apply rsplit_None in Hr. intros [= <- <-].
    rewrite app_nil_r, <- !app_assoc.
    rewrite (split_last_sep_app head (name ++ sfx)) by (done || free_of).
    assert (rsplit extsep (name ++ sfx) = None) as ->; [|done].
    apply rsplit_None. free_of.
Qed.

End PathFacts.

(** ** Trees and [os.walk] *)

Section TreeFacts.
Import Py Path.

Lemma elem_of_map {A B} (f : A -> B) (l : list A) (y : B) :
  y ∈ map f l <-> exists x, y = f x /\ x ∈ l.
Proof.
  rewrite list_elem_of_In, in_map_iff.
  split; intros (x & H1 & H2); exists x; by rewrite ?list_elem_of_In in *.
Qed.

Lemma elem_of_flat_map {A B} (f : A -> list B) (l : list A) (y : B) :
  y ∈ flat_map f l <-> exists x, x ∈ l /\ y ∈ f x.
Proof.
  rewrite list_elem_of_In, in_flat_map.
  split; intros (x & H1 & H2); exists x; by rewrite ?list_elem_of_In in *.
Qed.

Lemma walk_Dir top filenames dirs :
  walk top (Dir filenames dirs) =
    (top, map fst dirs, filenames)
      :: flat_map (fun d => walk (join top d.1) d.2) dirs.
Proof.
  simpl. f_equal. induction dirs as [|[d sub] ds IH]; simpl; [done|].
  by rewrite IH.
Qed.

Lemma tree_ok_Dir filenames dirs :
  tree_ok (Dir filenames dirs) <->
  Forall name_ok filenames /\ NoDup filenames /\
  Forall name_ok (map fst dirs) /\ NoDup (map fst dirs) /\
  Forall (fun d => tree_ok d.2) dirs.
Proof.
  simpl.
  assert ((fix all_ok (ds : list (str * tree)) : Prop :=
             match ds with
             | [] => True
             | (_, sub) :: ds' => tree_ok sub /\ all_ok ds'
             end) dirs <-> Forall (fun d => tree_ok d.2) dirs) as ->; [|done].
  induction dirs as [|[d sub] ds IH]; simpl.
  - split; [by constructor | done].
  - rewrite Forall_cons, IH. done.
Qed.

Lemma file_entries_Dir top filenames dirs :
  file_entries top (Dir filenames dirs) =
    map (pair top) filenames
      ++ flat_map (fun d => file_entries (join top d.1) d.2) dirs.
Proof.
  unfold file_entries. rewrite walk_Dir. simpl. f_equal.
  induction dirs as [|d ds IH]; simpl; [done|].
  by rewrite flat_map_app, IH.
Qed.

Lemma all_paths_Dir top filenames dirs :
  all_paths top (Dir filenames dirs) =
    map (join top) filenames
      ++ flat_map (fun d => all_paths (join top d.1) d.2) dirs.
Proof.
  unfold all_paths. rewrite file_entries_Dir, map_app, map_map. f_equal.
  induction dirs as [|d ds IH]; simpl; [done|].
  by rewrite map_app, IH.
Qed.

Lemma dir_prefix_join top d :
  name_ok d -> dir_prefix (join top d) = dir_prefix top ++ d ++ [sep].
Proof.
  intros [Hne Hfree]. rewrite join_dir_prefix by done.
  unfold dir_prefix at 1. case_decide as Hnil.
  { apply app_eq_nil in Hnil as [_ ?]. done. }
  destruct (endswith _ [sep]) eqn:He; [|by rewrite <- app_assoc].
  apply endswith_spec in He as [h He].
  destruct (exists_last Hne) as (d' & c & ->).
  rewrite app_assoc in He. apply app_inj_tail in He as [_ ->].
  exfalso. apply Hfree. rewrite elem_of_app, list_elem_of_singleton. by right.
Qed.

(** Every file of a tree lies below its top directory. *)
Lemma all_paths_below top t p :
  tree_ok t -> p ∈ all_paths top t ->
  exists r, p = dir_prefix top ++ r /\ r <> [].
Proof.
  revert top p. induction t as [filenames dirs IH] using tree_ind.
  intros top p (Hf & _ & Hd & _ & Hsub)%tree_ok_Dir.
  rewrite all_paths_Dir, elem_of_app. intros [Hp|Hp].
  - apply elem_of_map in Hp as (f & -> & Hin).
    rewrite Forall_forall in Hf. destruct (Hf f Hin) as [Hne Hfree].
    exists f. by rewrite join_dir_prefix.
  - apply elem_of_flat_map in Hp as ([d sub] & Hin & Hp). simpl in Hp.
    rewrite Forall_forall in IH. rewrite Forall_forall in Hsub.
    rewrite Forall_forall in Hd.
    destruct (IH _ Hin _ _ (Hsub _ Hin) Hp) as (r & -> & Hr).
    assert (name_ok d) as Hok.
    { apply Hd, elem_of_map. by exists (d, sub). }
    rewrite dir_prefix_join by done.
    exists (d ++ [sep] ++ r). split; [by rewrite <- !app_assoc|].
    destruct Hok as [Hne _]. by destruct d.
Qed.

Lemma app_sep_inj (a b x y : str) :
  sep ∉ a -> sep ∉ b -> a ++ sep :: x = b ++ sep :: y -> a = b /\ x = y.
Proof.
  revert b. induction a as [|c a IH]; intros [|c' b] Ha Hb; simpl.
  - by intros [= ->].
  - intros [= <- _]. exfalso. apply Hb. by left.
  - intros [= -> _]. exfalso. apply Ha. by left.
  - intros [= -> He]. apply not_elem_of_cons in Ha as [_ Ha], Hb as [_ Hb].
    destruct (IH _ Ha Hb He) as [-> ->]. done.
Qed.

Lemma NoDup_map_inj_on {A B} (f : A -> B) (l : list A) :
  (forall x y, x ∈ l -> y ∈ l -> f x = f y -> x = y) ->
  NoDup l -> NoDup (map f l).
Proof.
  intros Hinj Hl. induction Hl as [|x l Hx Hl IH]; simpl; constructor.
  - intros (y & Hxy & Hy)%elem_of_map.
    assert (x = y) as <-; [|done].
    apply Hinj; [by left | by right | done].
  - apply IH. intros y z Hy Hz. apply Hinj; by right.
Qed.

(** Below a sub-directory: the path continues with its name and a
    separator. *)
Lemma all_paths_sub top d sub p :
  name_ok d -> tree_ok sub -> p ∈ all_paths (join top d) sub ->
  exists r, p = dir_prefix top ++ d ++ sep :: r.
Proof.
  intros Hd Hsub Hp.
  destruct (all_paths_below _ _ _ Hsub Hp) as (r & -> & _).
  rewrite dir_prefix_join by done. exists r. by rewrite <- !app_assoc.
Qed.

(** No path is listed twice in a well-formed tree. *)
Lemma all_paths_NoDup top t : tree_ok t -> NoDup (all_paths top t).
Proof.
  revert top. induction t as [filenames dirs IH] using tree_ind.
  intros top (Hf & Hnf & Hd & Hnd & Hsub)%tree_ok_Dir.
  rewrite all_paths_Dir. apply NoDup_app. split; [|split].
  - apply NoDup_map_inj_on; [|done]. intros x y Hx Hy.
    rewrite Forall_forall in Hf.
    rewrite !join_dir_prefix by (by apply Hf).
    apply app_inv_head.
  - intros p (f & -> & Hin)%elem_of_map ([d sub] & Hds & Hp)%elem_of_flat_map.
    simpl in Hp. rewrite Forall_forall in Hf. destruct (Hf f Hin) as [_ Hfree].
    rewrite Forall_forall in Hd. rewrite Forall_forall in Hsub.
    assert (name_ok d) as Hok by (apply Hd, elem_of_map; by exists (d, sub)).
    destruct (all_paths_sub _ _ _ _ Hok (Hsub _ Hds) Hp) as (r & Hr).
    rewrite join_dir_prefix in Hr by done. apply app_inv_head in Hr.
    apply Hfree. rewrite Hr. free_of_elem.
  - clear Hf Hnf. induction dirs as [|[d sub] ds IHds]; simpl; [constructor|].
    apply Forall_cons in IH as [IHd IH], Hsub as [Hsd Hsub], Hd as [Hdd Hd].
    apply NoDup_cons in Hnd as [Hnd1 Hnd]. simpl in *.
    apply NoDup_app. split; [by apply IHd|split; [|by apply IHds]].
    intros p Hp ([d' sub'] & Hds & Hp')%elem_of_flat_map. simpl in Hp'.
    rewrite Forall_forall in Hd. rewrite Forall_forall in Hsub.
    assert (name_ok d') as Hok by (apply Hd, elem_of_map; by exists (d', sub')).
    destruct (all_paths_sub _ _ _ _ Hdd Hsd Hp) as (r & ->).
    destruct (all_paths_sub _ _ _ _ Hok (Hsub _ Hds) Hp') as (r' & Hr).
    apply app_inv_head in Hr.
    apply app_sep_inj in Hr as [-> _]; [|apply Hdd|apply Hok].
    apply Hnd1, elem_of_map. by exists (d', sub').
Qed.

End TreeFacts.

(** ** The scanner *)

Section ScannerFacts.
Import Py Path.

(** The file test is the conjunction of the three rules. *)
Lemma selected_spec pl kw overwrite f :
  selected pl kw overwrite f =
    is_mp4 f && keyword_ok pl kw f
      && negb (negb overwrite && is_own_output pl f).
Proof.
  destruct pl; simpl;
    unfold ClipVideo.selected, TransformVideo.selected, is_mp4, is_own_output;
    simpl; change (lit "_cropped" ++ lit ".mp4") with (lit "_cropped.mp4");
    change (lit "_new" ++ lit ".mp4") with (lit "_new.mp4");
    destruct (endswith (lower f) (lit ".mp4")); simpl; try done;
    destruct (contains _ _); simpl; try done;
    destruct overwrite; simpl; try done;
    by destruct (endswith (lower f) _).
Qed.

(** The collecting loop keeps the selected entries, in walk order. *)
Lemma collect_filter pl kw overwrite entries :
  collect pl kw overwrite entries =
    map (fun e => join e.1 e.2)
      (List.filter (fun e => selected pl kw overwrite e.2)
         (flat_map (fun '(dirpath, _, filenames) => map (pair dirpath) filenames)
            entries)).
Proof.
  destruct pl; simpl; unfold ClipVideo.collect, TransformVideo.collect;
    (induction entries as [|[[d ds] fs] es IH]; simpl; [done|];
     rewrite List.filter_app, map_app, IH; f_equal;
     induction fs as [|f fs IHfs]; simpl; [done|];
     rewrite IHfs; by destruct (_ _ overwrite f)).
Qed.

Lemma NoDup_map_filter {A B} (g : A -> B) (P : A -> bool) (l : list A) :
  NoDup (map g l) -> NoDup (map g (List.filter P l)).
Proof.
  induction l as [|x l IH]; simpl; [done|].
  intros [Hx Hl]%NoDup_cons. destruct (P x); simpl; [|by apply IH].
  constructor; [|by apply IH].
  intros (y & Hxy & Hy)%elem_of_map. apply Hx, elem_of_map.
  exists y. split; [done|].
  apply list_elem_of_In, filter_In in Hy as [Hy _]. by apply list_elem_of_In.
Qed.

Lemma collect_elem pl kw overwrite top t p :
  p ∈ collect pl kw overwrite (walk top t) <->
  exists dirpath filename,
    (dirpath, filename) ∈ file_entries top t /\
    p = join dirpath filename /\
    selected pl kw overwrite filename = true.
Proof.
  rewrite collect_filter, elem_of_map. fold (file_entries top t). split.
  - intros ([d f] & -> & Hin). exists d, f.
    apply list_elem_of_In, filter_In in Hin as [Hin Hsel].
    by rewrite list_elem_of_In.
  - intros (d & f & Hin & -> & Hsel). exists (d, f). split; [done|].
    apply list_elem_of_In, filter_In. by rewrite <- list_elem_of_In.
Qed.

Lemma collect_NoDup pl kw overwrite top t :
  tree_ok t -> NoDup (collect pl kw overwrite (walk top t)).
Proof.
  intros Hok. rewrite collect_filter. apply NoDup_map_filter.
  by apply all_paths_NoDup.
Qed.

End ScannerFacts.

(** ** The scanner selects the matching files, each once *)

(** Well-formedness of a concrete tree. *)
Ltac concrete_tree_ok :=
  repeat first
    [ apply Forall_nil_2 | apply Forall_cons_2 | apply NoDup_nil_2
    | apply NoDup_cons_2 | split ];
  rewrite ?not_elem_of_cons;
  repeat split; first [ exact I | discriminate | apply not_elem_of_nil ].

Lemma sample_tree_ok : tree_ok sample_tree.
Proof.
  simpl. concrete_tree_ok.
Qed.

(** C1.  For every tree, keyword and mode, the collected list holds exactly
    the paths of the files whose name ends, ignoring case, in [.mp4], whose
    name has the keyword (ignoring case) absent for the crop pipeline and
    present for the transform pipeline, and, in COPY mode only, whose name
    does not end (ignoring case) in the output suffix of the pipeline; in a
    tree as a file system presents it no path is collected twice. *)
Theorem scanner_selects_exactly pl kw overwrite top t :
  (forall p,
      p ∈ collect pl kw overwrite (walk top t) <->
      exists dirpath filename,
        (dirpath, filename) ∈ file_entries top t /\
        p = Path.join dirpath filename /\
        is_mp4 filename = true /\
        keyword_ok pl kw filename = true /\
        (overwrite = false -> is_own_output pl filename = false)) /\
  (tree_ok t -> NoDup (collect pl kw overwrite (walk top t))).
Proof.
  split; [|apply collect_NoDup].
  intros p. rewrite collect_elem.
  split; intros (d & f & Hin & -> & H); exists d, f; (split; [done|split; [done|]]).
  - rewrite selected_spec in H.
    apply andb_true_iff in H as [[Hm Hk]%andb_true_iff Ho].
    repeat split; [done..|]. intros ->. simpl in Ho.
    by apply negb_true_iff in Ho.
  - destruct H as (Hm & Hk & Ho). rewrite selected_spec, Hm, Hk. simpl.
    destruct overwrite; [done|]. simpl. by rewrite Ho.
Qed.

Lemma scanner_selects_exactly_witness :
  tree_ok sample_tree /\
  NoDup (collect Crop (lit "motion") false (walk (lit "/r") sample_tree)).
Proof.
  split; [exact sample_tree_ok|].
  apply (proj2 (scanner_selects_exactly Crop (lit "motion") false (lit "/r") sample_tree)).
  exact sample_tree_ok.
Defined.

(** ** The destination path *)

Section DestinationFacts.
Import Py Path.

Lemma suffix_free pl :
  (sep ∉ suffix pl) /\ (extsep ∉ suffix pl) /\ suffix pl <> [].
Proof. destruct pl; cbv [suffix lit list_ascii_of_string]; free_of. Qed.

Lemma output_paths_overwrite pl tmp p :
  output_paths pl tmp p true = (join tmp (temp_prefix pl ++ basename p), p).
Proof. by destruct pl. Qed.

Lemma output_paths_copy pl tmp p :
  output_paths pl tmp p false =
    ((splitext p).1 ++ suffix pl ++ (splitext p).2,
     (splitext p).1 ++ suffix pl ++ (splitext p).2).
Proof.
  destruct pl; simpl;
    unfold ClipVideo.output_paths, TransformVideo.output_paths;
    by destruct (splitext p).
Qed.

Lemma destination_path_any_tmp pl tmp overwrite p :
  snd (output_paths pl tmp p overwrite) = destination_path pl overwrite p.
Proof.
  unfold destination_path. destruct overwrite.
  - by rewrite !output_paths_overwrite.
  - by rewrite !output_paths_copy.
Qed.

Lemma destination_path_copy pl p :
  destination_path pl false p = (splitext p).1 ++ suffix pl ++ (splitext p).2.
Proof. unfold destination_path. by rewrite output_paths_copy. Qed.

Lemma app_infix_neq (x y z : str) : y <> [] -> x ++ y ++ z <> x ++ z.
Proof.
  intros Hy He. apply (f_equal length) in He.
  rewrite !length_app in He. destruct y; [done|]. simpl in He. lia.
Qed.

Lemma splitext_destination pl p :
  splitext (destination_path pl false p)
    = ((splitext p).1 ++ suffix pl, (splitext p).2) /\
  fst (split_last_sep (destination_path pl false p)) = fst (split_last_sep p).
Proof.
  rewrite destination_path_copy.
  destruct (splitext p) as [base ext] eqn:Hp. simpl.
  destruct (suffix_free pl) as (Hs & Hd & _).
  exact (splitext_infix p base ext (suffix pl) Hs Hd Hp).
Qed.

Lemma destination_path_not_source pl p : destination_path pl false p <> p.
Proof.
  rewrite destination_path_copy.
  destruct (splitext p) as [base ext] eqn:Hp. simpl.
  destruct (suffix_free pl) as (_ & _ & Hne).
  rewrite <- (splitext_sound _ _ _ Hp). by apply app_infix_neq.
Qed.

End DestinationFacts.

(** C6.  The destination is a function of the source path and the mode
    alone (the scratch directory plays no part).  In OVERWRITE mode it is
    the source path.  In COPY mode it is the stem of [splitext] followed by
    the suffix of the pipeline and the extension of [splitext]; its own
    [splitext] gives that stem with the suffix, and the same extension; its
    [dirname] is that of the source; and it differs from the source. *)
Theorem destination_path_is_pure pl p :
  (forall tmp overwrite,
      snd (output_paths pl tmp p overwrite) = destination_path pl overwrite p) /\
  destination_path pl true p = p /\
  destination_path pl false p
    = (Path.splitext p).1 ++ suffix pl ++ (Path.splitext p).2 /\
  Path.splitext (destination_path pl false p)
    = ((Path.splitext p).1 ++ suffix pl, (Path.splitext p).2) /\
  Path.dirname (destination_path pl false p) = Path.dirname p /\
  destination_path pl false p <> p.
Proof.
  split; [intros; apply destination_path_any_tmp|].
  split; [by destruct pl|].
  rewrite destination_path_copy.
  destruct (Path.splitext p) as [base ext] eqn:Hp. simpl.
  destruct (suffix_free pl) as (Hs & Hd & Hne).
  destruct (splitext_infix p base ext (suffix pl) Hs Hd Hp) as [Hx Hh].
  repeat split; [done| |].
  - unfold Path.dirname. by rewrite Hh.
  - rewrite <- (splitext_sound _ _ _ Hp). by apply app_infix_neq.
Qed.

(** ** One job *)

(** Unfold one job up to the call of the encoder, whose outcome is [H]. *)
Ltac run_job H :=
  unfold job_command, temp_path in *;
  match goal with pl : pipeline |- _ => destruct pl end; simpl in *;
  unfold ClipVideo.crop_video_top_half, TransformVideo.re_encode_video;
  unfold ClipVideo.output_paths, TransformVideo.output_paths in *;
  simpl in *;
  unfold bind, try_except, print, subprocess_run, shutil_move, exit, raise;
  simpl; rewrite ?H; simpl.

Lemma world_eq (w1 w2 : world) :
  files w1 = files w2 -> log w1 = log w2 -> w1 = w2.
Proof. destruct w1, w2; simpl; congruence. Qed.

(** Two results with the same files and the same log. *)
Ltac same_world :=
  f_equal; apply world_eq; simpl;
  first [ done | by rewrite delete_insert_eq | by rewrite delete_id
        | by rewrite <- !app_assoc ].

Section JobFacts.
Context (E : env).

Lemma last_command pl p temp : List.last (command pl p temp) [] = temp.
Proof. by destruct pl. Qed.

Lemma input_of_command pl p temp : input_of (command pl p temp) = p.
Proof. by destruct pl. Qed.

(** Exit status 0 in OVERWRITE mode: the temporary file replaces the
    source. *)
Lemma job_completed_overwrite pl p w d :
  ffmpeg E (job_command E pl true p) (files w) = Completed d ->
  transcode E pl p true w =
    (inr tt,
     {| files := <[p := d]> (delete (temp_path E pl true p) (files w));
        log := log w ++ [processing_line p; Run (job_command E pl true p);
                         Move (temp_path E pl true p) p;
                         success_line pl true p] |}).
Proof.
  intros H. run_job H; rewrite lookup_insert_eq; simpl.
  all: same_world.
Qed.

(** Exit status 0 in COPY mode: the output is beside the source. *)
Lemma job_completed_copy pl p w d :
  ffmpeg E (job_command E pl false p) (files w) = Completed d ->
  transcode E pl p false w =
    (inr tt,
     {| files := <[destination_path pl false p := d]> (files w);
        log := log w ++ [processing_line p; Run (job_command E pl false p);
                         success_line pl false (destination_path pl false p)] |}).
Proof.
  intros H. rewrite <- (destination_path_any_tmp pl (gettempdir E)).
  run_job H.
  all: destruct (Path.splitext p) as [base ext]; simpl in *; rewrite H; simpl.
  all: same_world.
Qed.

(** Non-zero exit status in OVERWRITE mode: nothing is at the temporary
    path afterwards, and nothing else has changed. *)
Lemma job_failed_overwrite pl p w rc err partial :
  ffmpeg E (job_command E pl true p) (files w) = Failed rc err partial ->
  transcode E pl p true w =
    (inr tt,
     {| files := delete (temp_path E pl true p) (files w);
        log := log w ++ [processing_line p; Run (job_command E pl true p)]
                 ++ failure_lines p rc err
                 ++ (if temp_present partial (files w) (temp_path E pl true p)
                     then [Remove (temp_path E pl true p)] else []) |}).
Proof.
  intros H. run_job H.
  all: destruct partial as [d|]; simpl;
    unfold os_path_exists, os_remove; simpl;
    [ repeat (rewrite lookup_insert_eq; simpl); same_world | ].
  all: match goal with
       | |- context [bool_decide (is_Some (?m !! ?t))] =>
           destruct (m !! t) as [d|] eqn:Ht
       end.
  all: simpl; rewrite ?Ht; simpl; same_world.
Qed.

(** Non-zero exit status in COPY mode: whatever the encoder left at the
    destination stays there. *)
Lemma job_failed_copy pl p w rc err partial :
  ffmpeg E (job_command E pl false p) (files w) = Failed rc err partial ->
  transcode E pl p false w =
    (inr tt,
     {| files := match partial with
                 | Some d => <[destination_path pl false p := d]> (files w)
                 | None => files w
                 end;
        log := log w ++ [processing_line p; Run (job_command E pl false p)]
                 ++ failure_lines p rc err |}).
Proof.
  intros H. rewrite <- (destination_path_any_tmp pl (gettempdir E)).
  run_job H.
  all: destruct (Path.splitext p) as [base ext]; simpl in *; rewrite H; simpl.
  all: destruct partial; simpl; same_world.
Qed.

(** No encoder: the job prints the complaint and raises [SystemExit]. *)
Lemma job_not_found pl p overwrite w :
  ffmpeg E (job_command E pl overwrite p) (files w) = NotFound ->
  transcode E pl p overwrite w =
    (inl SystemExit,
     {| files := files w;
        log := log w ++ [processing_line p;
                         Run (job_command E pl overwrite p);
                         not_found_line] |}).
Proof.
  intros H. destruct overwrite; run_job H.
  3,4: destruct (Path.splitext p) as [base ext]; simpl in *; rewrite H; simpl.
  all: same_world.
Qed.

End JobFacts.

(** ** The entry points *)

Section EntryFacts.
Context (E : env).

(** The root is not a directory: one line, and nothing else. *)
Lemma find_and_run_no_directory pl root kw overwrite w :
  directory E (files w) root = None ->
  find_and_run E pl root kw overwrite w = (inr tt, emit (no_directory_line root) w).
Proof.
  intros H. destruct pl; simpl;
    unfold ClipVideo.find_and_crop_videos, TransformVideo.find_and_process_videos;
    unfold bind, os_path_isdir; simpl; rewrite H;
    rewrite bool_decide_eq_false_2 by (by intros [? ?]); done.
Qed.

(** The root is a directory: header, then either the no-match line or the
    loop over the paths collected from the tree found at the start. *)
Lemma find_and_run_directory pl root kw overwrite w t :
  directory E (files w) root = Some t ->
  find_and_run E pl root kw overwrite w =
    let paths := collect pl kw overwrite (walk root t) in
    let w0 := log_more (header pl root kw overwrite) w in
    if decide (paths = []) then (inr tt, emit (no_match_line pl) w0)
    else
      match batch E pl overwrite paths (emit (found_line (length paths)) w0) with
      | (inr _, w') => (inr tt, emit complete_line w')
      | (inl e, w') => (inl e, w')
      end.
Proof.
  intros H. destruct pl; simpl;
    unfold ClipVideo.find_and_crop_videos, TransformVideo.find_and_process_videos;
    unfold bind, os_path_isdir, os_walk; simpl; rewrite H;
    rewrite (bool_decide_eq_true_2 _ (mk_is_Some _ _ eq_refl)); simpl.
  all: destruct overwrite; simpl; unfold ret, print; simpl; rewrite H.
  all: case_decide; simpl; [same_world|].
  all: unfold batch, transcode.
  all: match goal with
       | |- ?lhs = ?rhs =>
           match lhs with
           | context [for_each ?l ?f ?w1] =>
               match rhs with
               | context [for_each _ _ ?w2] =>
                   replace w1 with w2
                     by (apply world_eq; simpl; [done | by rewrite <- !app_assoc]);
                   by destruct (for_each l f w2) as [[e|[]] w']
               end
           end
       end.
Qed.

End EntryFacts.

(** ** The loop over the collected paths *)

(** Goals [Walk top ∉ l] for a list [l] of other events. *)
Ltac no_walk :=
  unfold failure_lines, processing_line, success_line, not_found_line;
  rewrite ?not_elem_of_app, ?not_elem_of_cons;
  repeat split; first [ discriminate | apply not_elem_of_nil ].

Section BatchFacts.
Context (E : env).

Lemma attempts_app l k : attempts (l ++ k) = attempts l ++ attempts k.
Proof. apply flat_map_app. Qed.

Lemma attempts_header pl root kw overwrite :
  attempts (header pl root kw overwrite) = [].
Proof. by destruct pl, overwrite. Qed.

(** Every job calls the encoder once, whatever comes of it. *)
Lemma transcode_attempts pl p overwrite w :
  attempts (log (transcode E pl p overwrite w).2) =
    attempts (log w) ++ [job_command E pl overwrite p].
Proof.
  destruct (ffmpeg E (job_command E pl overwrite p) (files w))
    as [d|rc err partial|] eqn:H.
  - destruct overwrite;
      [rewrite (job_completed_overwrite _ _ _ _ _ H)
      |rewrite (job_completed_copy _ _ _ _ _ H)];
      simpl; by rewrite attempts_app.
  - destruct overwrite;
      [rewrite (job_failed_overwrite _ _ _ _ _ _ _ H)
      |rewrite (job_failed_copy _ _ _ _ _ _ _ H)];
      simpl; rewrite attempts_app; simpl; [|done].
    by destruct (temp_present _ _ _).
  - rewrite (job_not_found _ _ _ _ _ H). simpl. by rewrite attempts_app.
Qed.

(** A job ends normally unless the encoder is missing. *)
Lemma transcode_result pl p overwrite w :
  (transcode E pl p overwrite w).1 =
    match ffmpeg E (job_command E pl overwrite p) (files w) with
    | NotFound => inl SystemExit
    | _ => inr tt
    end.
Proof.
  destruct (ffmpeg E (job_command E pl overwrite p) (files w))
    as [d|rc err partial|] eqn:H.
  - destruct overwrite;
      [by rewrite (job_completed_overwrite _ _ _ _ _ H)
      |by rewrite (job_completed_copy _ _ _ _ _ H)].
  - destruct overwrite;
      [by rewrite (job_failed_overwrite _ _ _ _ _ _ _ H)
      |by rewrite (job_failed_copy _ _ _ _ _ _ _ H)].
  - by rewrite (job_not_found _ _ _ _ _ H).
Qed.

Lemma batch_cons pl overwrite p paths w :
  batch E pl overwrite (p :: paths) w =
    match transcode E pl p overwrite w with
    | (inr _, w1) => batch E pl overwrite paths w1
    | (inl e, w1) => (inl e, w1)
    end.
Proof. done. Qed.

(** The encoder calls of a loop are the jobs of a prefix of its paths, in
    order; of all of them when the loop ends normally. *)
Lemma batch_prefix pl overwrite paths w :
  exists n,
    n <= length paths /\
    attempts (log (batch E pl overwrite paths w).2) =
      attempts (log w) ++ map (job_command E pl overwrite) (take n paths) /\
    (forall u, (batch E pl overwrite paths w).1 = inr u -> n = length paths).
Proof.
  revert w. induction paths as [|p paths IH]; intros w.
  - exists 0. simpl. by rewrite app_nil_r.
  - rewrite batch_cons.
    pose proof (transcode_attempts pl p overwrite w) as Ha.
    destruct (transcode E pl p overwrite w) as [[e|[]] w1]; simpl in Ha.
    + exists 1. simpl. split; [lia|]. rewrite ?take_0. done.
    + destruct (IH w1) as (n & Hn & Hlog & Hall). exists (S n). simpl.
      split; [lia|]. rewrite Hlog, Ha, <- app_assoc. split; [done|].
      intros u Hu. f_equal. by apply (Hall u).
Qed.

(** With the encoder present, the loop ends normally and every path has
    its job. *)
Lemma batch_all pl overwrite paths w :
  (forall p fs, p ∈ paths -> ffmpeg E (job_command E pl overwrite p) fs <> NotFound) ->
  exists w',
    batch E pl overwrite paths w = (inr tt, w') /\
    attempts (log w') =
      attempts (log w) ++ map (job_command E pl overwrite) paths.
Proof.
  revert w. induction paths as [|p paths IH]; intros w Hfound.
  - exists w. simpl. by rewrite app_nil_r.
  - rewrite batch_cons.
    pose proof (transcode_attempts pl p overwrite w) as Ha.
    pose proof (transcode_result pl p overwrite w) as Hr.
    destruct (transcode E pl p overwrite w) as [r w1]; simpl in Ha, Hr.
    assert (r = inr tt) as ->.
    { rewrite Hr. specialize (Hfound p (files w) ltac:(by left)).
      by destruct (ffmpeg E _ _). }
    destruct (IH w1) as (w' & Hw' & Hlog).
    { intros q fs Hq. apply Hfound. by right. }
    exists w'. split; [done|]. rewrite Hlog, Ha, <- app_assoc. done.
Qed.

(** The first job that finds no encoder is the last job of the loop. *)
Lemma batch_abort pl overwrite before p after w :
  (forall q fs, q ∈ before ->
                ffmpeg E (job_command E pl overwrite q) fs <> NotFound) ->
  (forall fs, ffmpeg E (job_command E pl overwrite p) fs = NotFound) ->
  exists w',
    batch E pl overwrite (before ++ p :: after) w = (inl SystemExit, w') /\
    attempts (log w') =
      attempts (log w) ++ map (job_command E pl overwrite) (before ++ [p]) /\
    exists l, log w' = l ++ [Run (job_command E pl overwrite p); not_found_line].
Proof.
  intros Hbefore Hp.
  destruct (batch_all pl overwrite before w Hbefore) as (w1 & Hw1 & Hlog1).
  assert (forall l w0 w0', batch E pl overwrite l w0 = (inr tt, w0') ->
          batch E pl overwrite (l ++ p :: after) w0 =
            batch E pl overwrite (p :: after) w0') as Happ.
  { induction l as [|q l IH]; intros w0 w0'.
    - by intros [= ->].
    - simpl app. rewrite !batch_cons.
      destruct (transcode E pl q overwrite w0) as [[e|[]] w2]; [done|apply IH]. }
  rewrite (Happ _ _ _ Hw1), batch_cons, (job_not_found _ _ _ _ _ (Hp _)).
  eexists. split; [done|]. simpl.
  rewrite attempts_app, map_app, Hlog1, <- app_assoc. simpl.
  split; [done|].
  exists (log w1 ++ [processing_line p]). by rewrite <- app_assoc.
Qed.

(** With the encoder present, the entry point ends normally and every
    collected path has its job. *)
Lemma find_and_run_all pl root kw overwrite w t :
  directory E (files w) root = Some t ->
  (forall cmd fs, ffmpeg E cmd fs <> NotFound) ->
  exists w',
    find_and_run E pl root kw overwrite w = (inr tt, w') /\
    attempts (log w') =
      attempts (log w)
        ++ map (job_command E pl overwrite) (collect pl kw overwrite (walk root t)).
Proof.
  intros Hdir Hfound.
  rewrite (find_and_run_directory E pl root kw overwrite w t Hdir). simpl.
  case_decide as Hnil.
  - eexists. split; [done|]. simpl.
    rewrite Hnil, !attempts_app, attempts_header. simpl.
    by rewrite !app_nil_r.
  - destruct (batch_all pl overwrite (collect pl kw overwrite (walk root t))
                (emit (found_line (length (collect pl kw overwrite (walk root t))))
                   (log_more (header pl root kw overwrite) w)))
      as (w' & -> & Hlog).
    { intros p fs _. apply Hfound. }
    eexists. split; [done|]. simpl.
    rewrite attempts_app, Hlog. simpl log.
    rewrite !attempts_app, attempts_header. simpl.
    by rewrite ?app_nil_r.
Qed.

(** A job adds to the log, and never a walk. *)
Lemma transcode_log pl p overwrite w :
  exists rest,
    log (transcode E pl p overwrite w).2 = log w ++ rest /\
    forall top, Walk top ∉ rest.
Proof.
  destruct (ffmpeg E (job_command E pl overwrite p) (files w))
    as [d|rc err partial|] eqn:H.
  - destruct overwrite;
      [rewrite (job_completed_overwrite _ _ _ _ _ H)
      |rewrite (job_completed_copy _ _ _ _ _ H)];
      simpl; eexists; (split; [done|]); intros top; no_walk.
  - destruct overwrite;
      [rewrite (job_failed_overwrite _ _ _ _ _ _ _ H)
      |rewrite (job_failed_copy _ _ _ _ _ _ _ H)];
      simpl; eexists; (split; [done|]); intros top;
      try destruct (temp_present _ _ _); no_walk.
  - rewrite (job_not_found _ _ _ _ _ H). simpl.
    eexists; (split; [done|]); intros top; no_walk.
Qed.

Lemma batch_log pl overwrite paths w :
  exists rest,
    log (batch E pl overwrite paths w).2 = log w ++ rest /\
    forall top, Walk top ∉ rest.
Proof.
  revert w. induction paths as [|p paths IH]; intros w.
  - exists []. simpl. split; [by rewrite app_nil_r|]. intros top. no_walk.
  - rewrite batch_cons.
    destruct (transcode_log pl p overwrite w) as (r1 & Hr1 & Hw1).
    destruct (transcode E pl p overwrite w) as [[e|[]] w1]; simpl in Hr1.
    + by exists r1.
    + destruct (IH w1) as (r2 & Hr2 & Hw2). exists (r1 ++ r2).
      rewrite Hr2, Hr1, <- app_assoc. split; [done|].
      intros top. rewrite not_elem_of_app. auto.
Qed.

End BatchFacts.

(** ** The temporary path of OVERWRITE mode *)

Section TempFacts.
Import Py Path.
Context (E : env).

Lemma temp_prefix_shape pl :
  (sep ∉ temp_prefix pl) /\ exists q, temp_prefix pl = q ++ ["_"].
Proof.
  destruct pl; cbv [temp_prefix lit list_ascii_of_string]; (split; [free_of|]).
  - by exists (lit "temp_crop").
  - by exists (lit "temp").
Qed.

Lemma temp_path_overwrite pl p :
  temp_path E pl true p = join (gettempdir E) (temp_prefix pl ++ basename p).
Proof. unfold temp_path. by rewrite output_paths_overwrite. Qed.

Lemma basename_free p : sep ∉ basename p.
Proof.
  unfold basename. destruct (split_last_sep p) as [head name] eqn:Hp.
  by apply split_last_sep_spec in Hp as (_ & ? & _).
Qed.

Lemma temp_path_prefix pl p :
  temp_path E pl true p = dir_prefix (gettempdir E) ++ temp_prefix pl ++ basename p.
Proof.
  rewrite temp_path_overwrite. apply join_dir_prefix.
  destruct (temp_prefix_shape pl) as [Hfree _].
  pose proof (basename_free p). free_of.
Qed.

(** The temporary path is never the source path. *)
Lemma temp_path_not_source pl p : temp_path E pl true p <> p.
Proof.
  rewrite temp_path_prefix. unfold basename.
  destruct (split_last_sep p) as [head name] eqn:Hp.
  apply split_last_sep_spec in Hp as (-> & _ & Hhead). simpl.
  rewrite app_assoc. intros He. apply app_inv_tail in He.
  destruct (temp_prefix_shape pl) as [_ [q Hq]]. rewrite Hq in He.
  destruct Hhead as [->|[h ->]].
  - rewrite app_assoc in He. by apply app_eq_nil in He as [_ ?].
  - rewrite app_assoc in He. by apply app_inj_tail in He as [_ ?].
Qed.

(** Two sources share their temporary path exactly when they share their
    base name. *)
Lemma temp_path_same pl p q :
  temp_path E pl true p = temp_path E pl true q <-> basename p = basename q.
Proof.
  rewrite !temp_path_prefix. split.
  - intros He. by do 2 apply app_inv_head in He.
  - by intros ->.
Qed.

End TempFacts.

(** C2, as the code has it.  In OVERWRITE mode the encoder writes to the
    file of the scratch directory named by the prefix of the pipeline and
    the base name of the source; this path is never the source path, and two
    sources have the same one exactly when they have the same base name.
    The file is moved onto the source path when the encoder exits with
    status 0, and in no other case; after a non-zero exit no file is left at
    the temporary path. *)
Theorem overwrite_goes_through_temp E pl p w :
  let temp := temp_path E pl true p in
  temp = Path.join (gettempdir E) (temp_prefix pl ++ Path.basename p) /\
  List.last (job_command E pl true p) [] = temp /\
  temp <> p /\
  (forall q, temp_path E pl true q = temp <-> Path.basename q = Path.basename p) /\
  match ffmpeg E (job_command E pl true p) (files w) with
  | Completed d =>
      transcode E pl p true w =
        (inr tt,
         {| files := <[p := d]> (delete temp (files w));
            log := log w ++ [processing_line p; Run (job_command E pl true p);
                             Move temp p; success_line pl true p] |})
  | Failed rc err partial =>
      transcode E pl p true w =
        (inr tt,
         {| files := delete temp (files w);
            log := log w ++ [processing_line p; Run (job_command E pl true p)]
                     ++ failure_lines p rc err
                     ++ (if temp_present partial (files w) temp
                         then [Remove temp] else []) |})
  | NotFound =>
      transcode E pl p true w =
        (inl SystemExit,
         {| files := files w;
            log := log w ++ [processing_line p; Run (job_command E pl true p);
                             not_found_line] |})
  end.
Proof.
  simpl. split; [apply temp_path_overwrite|].
  split; [apply last_command|].
  split; [apply temp_path_not_source|].
  split; [intros q; apply temp_path_same|].
  destruct (ffmpeg E _ _) as [d|rc err partial|] eqn:H.
  - by apply job_completed_overwrite.
  - by apply job_failed_overwrite.
  - by apply job_not_found.
Qed.

(** C2, as stated, fails: two different files of one batch get the same
    temporary path. *)
Lemma temp_paths_collide :
  let E := sample_env flaky_tool in
  collect Crop (lit "motion") true (walk (lit "/r") twin_tree)
    = [lit "/r/a/x.mp4"; lit "/r/b/x.mp4"] /\
  lit "/r/a/x.mp4" <> lit "/r/b/x.mp4" /\
  temp_path E Crop true (lit "/r/a/x.mp4") = lit "/tmp/temp_crop_x.mp4" /\
  temp_path E Crop true (lit "/r/b/x.mp4") = lit "/tmp/temp_crop_x.mp4".
Proof. repeat split; try reflexivity. discriminate. Qed.

(** C3.  In OVERWRITE mode, when the encoder exits with a non-zero status
    the job ends normally, the source path holds what it held, nothing is at
    the temporary path, every other path holds what it held, the text of the
    error stream is printed, and nothing is moved. *)
Theorem overwrite_failure_keeps_source E pl p w rc err partial :
  ffmpeg E (job_command E pl true p) (files w) = Failed rc err partial ->
  exists w',
    transcode E pl p true w = (inr tt, w') /\
    files w' !! p = files w !! p /\
    files w' !! temp_path E pl true p = None /\
    (forall q, q <> temp_path E pl true p -> files w' !! q = files w !! q) /\
    log w' = log w ++ [processing_line p; Run (job_command E pl true p)]
               ++ [Print (lit "ERROR processing " ++ p ++ lit ":");
                   Print (lit "  Return code: " ++ Py.str_of_Z rc);
                   Print (lit "  Stderr: " ++ err)]
               ++ (if temp_present partial (files w) (temp_path E pl true p)
                   then [Remove (temp_path E pl true p)] else []).
Proof.
  intros H. eexists. split; [by apply job_failed_overwrite|]. simpl.
  split; [|split; [|split]].
  - apply lookup_delete_ne, temp_path_not_source.
  - apply lookup_delete_eq.
  - intros q Hq. by apply lookup_delete_ne.
  - done.
Qed.

Lemma overwrite_failure_keeps_source_witness :
  let E := sample_env flaky_tool in
  let p := lit "/r/a.mp4" in
  ffmpeg E (job_command E Crop true p) (files sample_world)
    = Failed 1 (lit "Invalid data found when processing input") (Some (lit "junk")) /\
  exists w',
    transcode E Crop p true sample_world = (inr tt, w') /\
    files w' !! p = files sample_world !! p /\
    files w' !! temp_path E Crop true p = None.
Proof.
  split; [reflexivity|].
  destruct (overwrite_failure_keeps_source (sample_env flaky_tool) Crop
              (lit "/r/a.mp4") sample_world 1
              (lit "Invalid data found when processing input")
              (Some (lit "junk")) eq_refl)
    as (w' & Hrun & Hsrc & Htmp & _).
  exists w'. by repeat split.
Defined.

(** ** Failures and the batch *)

(** C4.  When the encoder is installed, the entry point ends normally and
    the encoder is called once for every collected path, in order, however
    many of the calls exit with a non-zero status; a job whose call exits
    with a non-zero status ends normally after printing the three lines of
    the report. *)
Theorem failure_does_not_stop_batch E pl root kw overwrite w t :
  directory E (files w) root = Some t ->
  (forall cmd fs, ffmpeg E cmd fs <> NotFound) ->
  (exists w',
      find_and_run E pl root kw overwrite w = (inr tt, w') /\
      attempts (log w') =
        attempts (log w)
          ++ map (job_command E pl overwrite) (collect pl kw overwrite (walk root t))) /\
  (forall p w0 rc err partial,
      ffmpeg E (job_command E pl overwrite p) (files w0) = Failed rc err partial ->
      exists w1 rest,
        transcode E pl p overwrite w0 = (inr tt, w1) /\
        log w1 = log w0 ++ [processing_line p; Run (job_command E pl overwrite p)]
                   ++ failure_lines p rc err ++ rest).
Proof.
  intros Hdir Hfound. split.
  - by apply find_and_run_all.
  - intros p w0 rc err partial H. destruct overwrite.
    + eexists _, _. split; [by apply job_failed_overwrite|]. done.
    + eexists _, []. split; [by apply job_failed_copy|].
      simpl. by rewrite ?app_nil_r.
Qed.

Lemma failure_does_not_stop_batch_witness :
  let E := sample_env flaky_tool in
  exists w',
    find_and_run E Crop (lit "/r") (lit "motion") false sample_world = (inr tt, w') /\
    attempts (log w') =
      [job_command E Crop false (lit "/r/a.mp4");
       job_command E Crop false (lit "/r/sub/C.MP4")].
Proof.
  assert (forall cmd fs, flaky_tool cmd fs <> NotFound) as Hfound.
  { intros cmd fs. unfold flaky_tool. by case_decide. }
  exact (proj1 (failure_does_not_stop_batch (sample_env flaky_tool) Crop
                  (lit "/r") (lit "motion") false sample_world sample_tree
                  eq_refl Hfound)).
Defined.

(** C5.  When the job of a collected path finds no encoder, and the jobs of
    the paths before it found one, the entry point ends with [SystemExit]:
    the encoder was called for the paths up to that one and for no later
    path, and the last thing printed is the complaint of that job. *)
Theorem missing_encoder_aborts_batch E pl root kw overwrite w t before p after :
  directory E (files w) root = Some t ->
  collect pl kw overwrite (walk root t) = before ++ p :: after ->
  (forall q fs, q ∈ before ->
                ffmpeg E (job_command E pl overwrite q) fs <> NotFound) ->
  (forall fs, ffmpeg E (job_command E pl overwrite p) fs = NotFound) ->
  exists w',
    find_and_run E pl root kw overwrite w = (inl SystemExit, w') /\
    attempts (log w') =
      attempts (log w) ++ map (job_command E pl overwrite) (before ++ [p]) /\
    exists l, log w' = l ++ [Run (job_command E pl overwrite p); not_found_line].
Proof.
  intros Hdir Hpaths Hbefore Hp.
  rewrite (find_and_run_directory E pl root kw overwrite w t Hdir). simpl.
  rewrite Hpaths. case_decide as Hnil.
  { by destruct before. }
  destruct (batch_abort E pl overwrite before p after
              (emit (found_line (length (before ++ p :: after)))
                 (log_more (header pl root kw overwrite) w)) Hbefore Hp)
    as (w' & -> & Hlog & Hlast).
  exists w'. split; [done|]. split; [|done].
  rewrite Hlog. simpl log. rewrite !attempts_app, attempts_header. simpl.
  by rewrite ?app_nil_r.
Qed.

Lemma missing_encoder_aborts_batch_witness :
  let E := sample_env missing_tool in
  exists w',
    find_and_run E Crop (lit "/r") (lit "motion") false sample_world
      = (inl SystemExit, w') /\
    attempts (log w') = [job_command E Crop false (lit "/r/a.mp4")].
Proof.
  destruct (missing_encoder_aborts_batch (sample_env missing_tool) Crop
              (lit "/r") (lit "motion") false sample_world sample_tree
              [] (lit "/r/a.mp4") [lit "/r/sub/C.MP4"] eq_refl eq_refl)
    as (w' & Hrun & Hlog & _).
  - intros q fs Hq. by apply elem_of_nil in Hq.
  - done.
  - exists w'. by split.
Defined.

(** C8.  When the root is not a directory, the entry point prints the error
    line and ends normally: the files are as they were and the line is the
    only event, so nothing was walked, run, moved or removed. *)
Theorem missing_root_has_no_effect E pl root kw overwrite w :
  directory E (files w) root = None ->
  find_and_run E pl root kw overwrite w =
    (inr tt,
     {| files := files w;
        log := log w ++ [Print (lit "Error: Directory '" ++ root ++ lit "' not found.")] |}).
Proof. apply find_and_run_no_directory. Qed.

Lemma missing_root_has_no_effect_witness :
  let E := sample_env flaky_tool in
  find_and_run E Transform (lit "/nowhere") (lit "motion") true sample_world =
    (inr tt,
     {| files := files sample_world;
        log := [Print (lit "Error: Directory '/nowhere' not found.")] |}).
Proof.
  exact (missing_root_has_no_effect (sample_env flaky_tool) Transform
           (lit "/nowhere") (lit "motion") true sample_world eq_refl).
Defined.

(** ** Outputs of a COPY-mode run *)

Section RerunFacts.
Import Py Path.

Lemma lower_char_dot c : lower_char c = extsep -> c = extsep.
Proof.
  destruct c as [[] [] [] [] [] [] [] []]; vm_compute; intros H;
    first [done | discriminate H].
Qed.

Lemma lower_free_dot x : extsep ∉ x -> extsep ∉ lower x.
Proof.
  intros Hx (c & Hc & Hin)%elem_of_map. apply Hx.
  by rewrite <- (lower_char_dot c).
Qed.

Lemma lower_suffix pl : lower (suffix pl) = suffix pl.
Proof. by destruct pl. Qed.

(** The last occurrence of a character splits a string in one way. *)
Lemma last_split_unique c (a b x y : str) :
  c ∉ x -> c ∉ y -> a ++ c :: x = b ++ c :: y -> a = b /\ x = y.
Proof.
  intros Hx Hy He.
  pose proof (rsplit_app c a x Hx) as Ha. rewrite He, rsplit_app in Ha by done.
  by injection Ha as -> ->.
Qed.

Lemma splitext_ext_shape p base ext :
  splitext p = (base, ext) ->
  ext = [] \/ exists r, ext = extsep :: r /\ extsep ∉ r.
Proof.
  unfold splitext. destruct (split_last_sep p) as [head name].
  destruct (rsplit extsep name) as [[b r]|] eqn:Hn; [|intros [= _ <-]; by left].
  apply rsplit_Some in Hn as [_ Hr].
  destruct (forallb _ b); intros [= _ <-]; [by left|right; by exists r].
Qed.

Lemma output_name_eq pl f :
  output_name pl f = (splitext f).1 ++ suffix pl ++ (splitext f).2.
Proof. apply destination_path_copy. Qed.

(** A suffix alone at the end of a name is not [.mp4]. *)
Lemma suffix_not_mp4 pl x : endswith (lower (x ++ suffix pl)) (lit ".mp4") = false.
Proof.
  apply endswith_false. intros h He.
  rewrite lower_app, lower_suffix in He.
  destruct pl; cbv [suffix lit list_ascii_of_string] in He.
  - change (lower x ++ ["_"; "c"; "r"; "o"; "p"; "p"; "e"; "d"])
      with (lower x ++ ["_"; "c"; "r"; "o"] ++  ["p"; "p"; "e"; "d"]) in He.
    rewrite app_assoc in He. by apply app_inj_2 in He as [_ ?].
  - by apply app_inj_2 in He as [_ ?].
Qed.

(** In lower case, an output name that ends in [.mp4] is the stem of the
    source, the suffix and [.mp4]. *)
Lemma output_name_mp4 pl f :
  is_mp4 (output_name pl f) = true ->
  lower (output_name pl f) = lower (splitext f).1 ++ suffix pl ++ lit ".mp4" /\
  lower f = lower (splitext f).1 ++ lit ".mp4".
Proof.
  unfold is_mp4. rewrite output_name_eq.
  destruct (splitext f) as [base ext] eqn:Hf. simpl.
  pose proof (splitext_sound _ _ _ Hf) as Hsound.
  destruct (splitext_ext_shape _ _ _ Hf) as [->|(r & -> & Hr)].
  - rewrite app_nil_r, suffix_not_mp4. done.
  - intros [h He]%endswith_spec.
    rewrite !lower_app in He. simpl in He.
    change (lower_char extsep) with extsep in He.
    rewrite lower_suffix, app_assoc in He.
    change (lit ".mp4") with (extsep :: lit "mp4") in He.
    apply last_split_unique in He as [_ Hr'];
      [|by apply lower_free_dot|cbv [lit list_ascii_of_string]; free_of].
    rewrite <- Hsound, !lower_app. simpl.
    change (lower_char extsep) with extsep. rewrite lower_suffix, Hr'. done.
Qed.

(** The output of a job is never a candidate of the same pipeline in COPY
    mode. *)
Lemma output_not_selected pl kw f :
  selected pl kw false (output_name pl f) = false.
Proof.
  rewrite selected_spec. destruct (is_mp4 (output_name pl f)) eqn:Hm; [|done].
  apply output_name_mp4 in Hm as [Hout _].
  assert (is_own_output pl (output_name pl f) = true) as ->.
  { apply endswith_spec. by exists (lower (splitext f).1). }
  simpl. by rewrite andb_false_r.
Qed.

(** A selected file never yields a name with the suffix twice. *)
Lemma output_not_chained pl kw f :
  selected pl kw false f = true ->
  endswith (lower (output_name pl f)) (suffix pl ++ suffix pl ++ lit ".mp4")
    = false.
Proof.
  intros Hsel. apply endswith_false. intros h He.
  assert (is_mp4 (output_name pl f) = true) as Hm.
  { apply endswith_spec. exists (h ++ suffix pl ++ suffix pl).
    by rewrite He, <- !app_assoc. }
  apply output_name_mp4 in Hm as [Hout Hf]. rewrite Hout in He.
  rewrite !app_assoc in He. apply app_inv_tail in He.
  apply app_inv_tail in He.
  rewrite selected_spec in Hsel.
  assert (is_own_output pl f = true) as Hown.
  { apply endswith_spec. exists h. by rewrite Hf, He, <- app_assoc. }
  rewrite Hown in Hsel. simpl in Hsel. by rewrite andb_false_r in Hsel.
Qed.

Lemma output_name_free pl f : sep ∉ f -> sep ∉ output_name pl f.
Proof.
  intros Hf. rewrite output_name_eq.
  destruct (splitext f) as [base ext] eqn:He. simpl.
  apply splitext_sound in He as <-.
  apply not_elem_of_app in Hf as [Hb Hx].
  destruct (suffix_free pl) as (Hs & _ & _). free_of.
Qed.

(** The output is written beside the source, under the output name. *)
Lemma destination_join pl d f :
  sep ∉ f -> destination_path pl false (join d f) = join d (output_name pl f).
Proof.
  intros Hf. pose proof (output_name_free pl f Hf) as Ho.
  rewrite destination_path_copy, (join_dir_prefix d f) by done.
  rewrite (join_dir_prefix d (output_name pl f)), output_name_eq by done.
  rewrite splitext_head by (done || apply dir_prefix_like). simpl.
  by rewrite <- app_assoc.
Qed.

End RerunFacts.

Section RerunScan.
Import Py Path.

Lemma collect_elem_entries pl kw overwrite entries p :
  p ∈ collect pl kw overwrite entries <->
  exists d ds fs f,
    (d, ds, fs) ∈ entries /\ f ∈ fs /\
    selected pl kw overwrite f = true /\ p = join d f.
Proof.
  rewrite collect_filter, elem_of_map. split.
  - intros ([d f] & -> & Hin).
    apply list_elem_of_In, filter_In in Hin as [Hin Hsel].
    apply list_elem_of_In, elem_of_flat_map in Hin as ([[d' ds] fs] & He & Hin).
    apply elem_of_map in Hin as (f' & [= -> ->] & Hf).
    by exists d', ds, fs, f'.
  - intros (d & ds & fs & f & He & Hf & Hsel & ->). exists (d, f).
    split; [done|]. apply list_elem_of_In, filter_In. split; [|done].
    apply list_elem_of_In, elem_of_flat_map. exists (d, ds, fs).
    split; [done|]. apply elem_of_map. by exists f.
Qed.

(** A second COPY-mode run collects what the first run collected. *)
Lemma rerun_collects_same pl kw before after p :
  rerun_entries pl kw before after ->
  p ∈ collect pl kw false after <-> p ∈ collect pl kw false before.
Proof.
  intros [Hkept Hnew]. rewrite !collect_elem_entries. split.
  - intros (d & ds' & fs' & n & He & Hn & Hsel & ->).
    destruct (Hnew _ _ _ _ He Hn) as (ds & fs & Hb & [Hold|(f & _ & _ & ->)]).
    + by exists d, ds, fs, n.
    + by rewrite output_not_selected in Hsel.
  - intros (d & ds & fs & f & He & Hf & Hsel & ->).
    destruct (Hkept _ _ _ He) as (ds' & fs' & Ha & Hsub).
    exists d, ds', fs', f. auto.
Qed.

Lemma file_entries_names top t d f :
  tree_ok t -> (d, f) ∈ file_entries top t -> name_ok f.
Proof.
  revert top. induction t as [filenames dirs IH] using tree_ind.
  intros top (Hf & _ & _ & _ & Hsub)%tree_ok_Dir.
  rewrite file_entries_Dir, elem_of_app. intros [Hin|Hin].
  - apply elem_of_map in Hin as (f' & [= _ ->] & Hin).
    rewrite Forall_forall in Hf. by apply Hf.
  - apply elem_of_flat_map in Hin as ([d' sub] & Hd & Hin). simpl in Hin.
    rewrite Forall_forall in IH. rewrite Forall_forall in Hsub.
    by apply (IH _ Hd (join top d') (Hsub _ Hd)).
Qed.

(** The output of a COPY-mode job is not among the collected paths. *)
Lemma destination_not_collected pl kw top t p :
  tree_ok t ->
  p ∈ collect pl kw false (walk top t) ->
  destination_path pl false p ∉ collect pl kw false (walk top t).
Proof.
  intros Hok (d & f & Hin & -> & _)%collect_elem
         (d' & f' & Hin' & He & Hsel)%collect_elem.
  destruct (file_entries_names _ _ _ _ Hok Hin) as [_ Hf].
  destruct (file_entries_names _ _ _ _ Hok Hin') as [_ Hf'].
  rewrite destination_join in He by done.
  apply (f_equal basename) in He.
  rewrite !basename_join in He by (done || by apply output_name_free).
  by rewrite <- He, output_not_selected in Hsel.
Qed.

End RerunScan.

(** C7.  In COPY mode the output of a job lies beside its source under the
    output name; the scanner rejects that name, and for a selected source
    the name does not carry the suffix twice; so a second run, over a tree
    that differs from the first by such outputs only, collects the paths
    the first run collected. *)
Theorem copy_rerun_skips_own_outputs pl kw :
  (forall d f,
      Path.sep ∉ f ->
      destination_path pl false (Path.join d f) = Path.join d (output_name pl f)) /\
  (forall f,
      selected pl kw false f = true ->
      selected pl kw false (output_name pl f) = false /\
      Py.endswith (Py.lower (output_name pl f))
        (suffix pl ++ suffix pl ++ lit ".mp4") = false) /\
  (forall before after,
      rerun_entries pl kw before after ->
      forall p, p ∈ collect pl kw false after <-> p ∈ collect pl kw false before).
Proof.
  split; [intros d f; apply destination_join|]. split.
  - intros f Hsel.
    split; [apply output_not_selected|by apply (output_not_chained pl kw)].
  - intros before after H p. by apply rerun_collects_same.
Qed.

Lemma single_tree_rerun :
  rerun_entries Crop (lit "motion")
    (walk (lit "/r") single_tree) (walk (lit "/r") single_tree_after).
Proof.
  split.
  - intros d ds fs He. apply list_elem_of_singleton in He as [= -> -> ->].
    eexists _, _. split; [by apply list_elem_of_singleton|].
    intros f Hf. apply list_elem_of_singleton in Hf as ->. by left.
  - intros d ds' fs' n He Hn. apply list_elem_of_singleton in He as [= -> -> ->].
    eexists _, _. split; [by apply list_elem_of_singleton|].
    apply elem_of_cons in Hn as [->|Hn].
    + left. by left.
    + apply list_elem_of_singleton in Hn as ->. right. exists (lit "a.mp4"). split; [by left|]. by split.
Qed.

Lemma copy_rerun_skips_own_outputs_witness :
  destination_path Crop false (lit "/r/a.mp4") = lit "/r/a_cropped.mp4" /\
  selected Crop (lit "motion") false (lit "a.mp4") = true /\
  selected Crop (lit "motion") false (lit "a_cropped.mp4") = false /\
  (forall p,
      p ∈ collect Crop (lit "motion") false (walk (lit "/r") single_tree_after) <->
      p ∈ collect Crop (lit "motion") false (walk (lit "/r") single_tree)).
Proof.
  destruct (copy_rerun_skips_own_outputs Crop (lit "motion")) as (Hd & Hf & Hr).
  split; [|split; [|split]].
  - apply (Hd (lit "/r") (lit "a.mp4")).
    cbv [lit list_ascii_of_string]. free_of.
  - reflexivity.
  - exact (proj1 (Hf (lit "a.mp4") eq_refl)).
  - exact (Hr _ _ single_tree_rerun).
Defined.

(** ** The candidates are fixed before the first job *)

Section SnapshotFacts.
Context (E : env).

Lemma find_and_run_snapshot pl root kw overwrite w t :
  directory E (files w) root = Some t ->
  let paths := collect pl kw overwrite (walk root t) in
  let w' := (find_and_run E pl root kw overwrite w).2 in
  (exists n,
      n <= length paths /\
      attempts (log w') =
        attempts (log w) ++ map (job_command E pl overwrite) (take n paths)) /\
  (exists rest,
      log w' = log w ++ header pl root kw overwrite ++ rest /\
      forall top, Walk top ∉ rest).
Proof.
  intros Hdir. cbv zeta.
  rewrite (find_and_run_directory E pl root kw overwrite w t Hdir). cbv zeta.
  case_decide as Hnil.
  - cbn [snd emit log_more log]. split.
    + exists 0. split; [lia|]. rewrite take_0. simpl.
      by rewrite !attempts_app, attempts_header, !app_nil_r.
    + exists [no_match_line pl]. split; [by rewrite <- app_assoc|].
      intros top. unfold no_match_line. no_walk.
  - set (paths := collect pl kw overwrite (walk root t)) in *.
    set (w0 := emit (found_line (length paths))
                 (log_more (header pl root kw overwrite) w)).
    destruct (batch_prefix E pl overwrite paths w0) as (n & Hn & Hatt & _).
    destruct (batch_log E pl overwrite paths w0) as (rest & Hlog & Hwalk).
    assert (attempts (log w0) = attempts (log w)) as Hw0.
    { simpl. by rewrite !attempts_app, attempts_header, !app_nil_r. }
    assert (log w0 = log w ++ header pl root kw overwrite
                       ++ [found_line (length paths)]) as Hl0.
    { unfold w0, emit, log_more. cbn [log]. by rewrite <- app_assoc. }
    destruct (batch E pl overwrite paths w0) as [[e|[]] w1];
      cbn [snd fst] in *.
    + split.
      * exists n. by rewrite Hatt, <- Hw0.
      * exists ([found_line (length paths)] ++ rest).
        rewrite Hlog, Hl0. split; [by rewrite <- !app_assoc|].
        intros top. rewrite not_elem_of_app. split; [|apply Hwalk].
        unfold found_line. no_walk.
    + split.
      * exists n. unfold emit. cbn [log].
        rewrite attempts_app, Hatt, <- Hw0. simpl.
        by rewrite app_nil_r.
      * exists ([found_line (length paths)] ++ rest ++ [complete_line]).
        unfold emit at 1. cbn [log].
        rewrite Hlog, Hl0. split; [by rewrite <- !app_assoc|].
        intros top. unfold found_line, complete_line.
        rewrite !not_elem_of_app. split; [no_walk|]. split; [apply Hwalk|no_walk].
Qed.

Lemma collect_in_tree pl kw overwrite top t p :
  p ∈ collect pl kw overwrite (walk top t) -> p ∈ all_paths top t.
Proof.
  intros (d & f & Hin & -> & _)%collect_elem.
  apply elem_of_map. by exists (d, f).
Qed.

End SnapshotFacts.

(** C9.  The encoder calls of a run are the jobs of a prefix of the list
    collected from the tree found at the start; the one walk of the run
    comes in the header, before every call; so the input of every call is
    a collected path, a file of that tree; and in COPY mode, in a
    well-formed tree, the destination of a collected path is not a
    collected path. *)
Theorem candidates_fixed_before_processing E pl root kw overwrite w t :
  directory E (files w) root = Some t ->
  let paths := collect pl kw overwrite (walk root t) in
  let w' := (find_and_run E pl root kw overwrite w).2 in
  (exists n,
      n <= length paths /\
      attempts (log w') =
        attempts (log w) ++ map (job_command E pl overwrite) (take n paths)) /\
  (exists rest,
      log w' = log w ++ header pl root kw overwrite ++ rest /\
      attempts (header pl root kw overwrite) = [] /\
      forall top, Walk top ∉ rest) /\
  (forall cmd,
      cmd ∈ attempts (log w') ->
      cmd ∈ attempts (log w) \/
      (input_of cmd ∈ paths /\ input_of cmd ∈ all_paths root t)) /\
  (overwrite = false -> tree_ok t ->
   forall p, p ∈ paths -> destination_path pl false p ∉ paths).
Proof.
  intros Hdir paths w'.
  destruct (find_and_run_snapshot E pl root kw overwrite w t Hdir)
    as [(n & Hn & Hatt) (rest & Hlog & Hwalk)].
  fold paths w' in Hatt, Hlog.
  split; [by exists n|]. split.
  { exists rest. split; [done|]. split; [apply attempts_header|done]. }
  split.
  - intros cmd. rewrite Hatt, elem_of_app. intros [Hin|Hin]; [by left|right].
    apply elem_of_map in Hin as (p & -> & Hp).
    apply elem_of_take in Hp as (i & Hp & _).
    apply list_elem_of_lookup_2 in Hp.
    unfold job_command. rewrite input_of_command.
    split; [done|]. by apply (collect_in_tree pl kw overwrite).
  - intros -> Hok p Hp. by apply destination_not_collected.
Qed.

Lemma candidates_fixed_before_processing_witness :
  let E := sample_env flaky_tool in
  let paths := [lit "/r/a.mp4"; lit "/r/sub/C.MP4"] in
  let w' := (find_and_run E Crop (lit "/r") (lit "motion") false sample_world).2 in
  directory E (files sample_world) (lit "/r") = Some sample_tree /\
  exists n,
    n <= length paths /\
    attempts (log w') = map (job_command E Crop false) (take n paths).
Proof.
  split; [reflexivity|].
  exact (proj1
    (candidates_fixed_before_processing (sample_env flaky_tool) Crop
       (lit "/r") (lit "motion") false sample_world sample_tree eq_refl)).
Defined.

(** ** The empty keyword *)

(** C10.  With the empty keyword the crop pipeline selects no file and
    collects nothing, in both modes; the transform pipeline selects a file
    exactly when its name ends in [.mp4] and, in COPY mode, does not carry
    the suffix, so every [.mp4] file without the suffix is selected in both
    modes; and both entry points take the empty keyword: over a directory
    the crop pipeline prints its header and the no-match line, and the
    transform pipeline, with the encoder installed, ends normally. *)
Theorem empty_keyword_selection :
  (forall overwrite f, selected Crop [] overwrite f = false) /\
  (forall overwrite entries, collect Crop [] overwrite entries = []) /\
  (forall overwrite f,
      selected Transform [] overwrite f =
        is_mp4 f && negb (negb overwrite && is_own_output Transform f)) /\
  (forall overwrite f,
      is_mp4 f = true -> is_own_output Transform f = false ->
      selected Transform [] overwrite f = true) /\
  (forall E root overwrite w t,
      directory E (files w) root = Some t ->
      find_and_run E Crop root [] overwrite w =
        (inr tt,
         {| files := files w;
            log := log w ++ header Crop root [] overwrite ++ [no_match_line Crop] |})) /\
  (forall E root overwrite w t,
      directory E (files w) root = Some t ->
      (forall cmd fs, ffmpeg E cmd fs <> NotFound) ->
      exists w',
        find_and_run E Transform root [] overwrite w = (inr tt, w') /\
        attempts (log w') =
          attempts (log w)
            ++ map (job_command E Transform overwrite)
                 (collect Transform [] overwrite (walk root t))).
Proof.
  assert (forall overwrite f, selected Crop [] overwrite f = false) as Hcrop.
  { intros overwrite f. rewrite selected_spec. simpl.
    by rewrite contains_nil, andb_false_r. }
  assert (forall overwrite entries, collect Crop [] overwrite entries = [])
    as Hnone.
  { intros overwrite entries. rewrite collect_filter.
    induction (flat_map _ entries) as [|e l IH]; [done|].
    simpl. by rewrite Hcrop. }
  split; [done|]. split; [done|]. split; [|split; [|split]].
  - intros overwrite f. rewrite selected_spec. simpl.
    by rewrite contains_nil, andb_true_r.
  - intros overwrite f Hm Ho. rewrite selected_spec, Hm, Ho. simpl.
    by rewrite contains_nil, andb_false_r.
  - intros E root overwrite w t Hdir.
    rewrite (find_and_run_directory E Crop root [] overwrite w t Hdir).
    cbv zeta. rewrite Hnone. rewrite decide_True by done.
    f_equal. apply world_eq; [done|]. simpl. by rewrite <- app_assoc.
  - intros E root overwrite w t Hdir Hfound. by apply find_and_run_all.
Qed.

Lemma empty_keyword_selection_witness :
  let E := sample_env flaky_tool in
  selected Transform [] false (lit "a.mp4") = true /\
  find_and_run E Crop (lit "/r") [] false sample_world =
    (inr tt,
     {| files := files sample_world;
        log := header Crop (lit "/r") [] false ++ [no_match_line Crop] |}) /\
  exists w',
    find_and_run E Transform (lit "/r") [] true sample_world = (inr tt, w') /\
    length (attempts (log w')) = 6.
Proof.
  destruct empty_keyword_selection as (_ & _ & _ & Hsel & Hcrop & Htrans).
  split; [exact (Hsel false (lit "a.mp4") eq_refl eq_refl)|].
  split; [exact (Hcrop (sample_env flaky_tool) (lit "/r") false sample_world
                   sample_tree eq_refl)|].
  destruct (Htrans (sample_env flaky_tool) (lit "/r") true sample_world
              sample_tree eq_refl) as (w' & Hrun & Hlog).
  - intros cmd fs. unfold sample_env, flaky_tool. simpl. by case_decide.
  - exists w'. split; [done|]. by rewrite Hlog.
Defined.


(** * Further properties *)

(** ** The file test *)

Section SelectionFacts.
Import Py Path.



Lemma collect_mode_sublist pl kw entries :
  collect pl kw false entries `sublist_of` collect pl kw true entries.
Proof.
  rewrite !collect_filter.
  induction (flat_map _ entries) as [|e l IH]; simpl; [constructor|].
  rewrite !selected_spec. simpl.
  destruct (is_mp4 e.2 && keyword_ok pl kw e.2); simpl; [|done].
  destruct (is_own_output pl e.2); simpl; by constructor.
Qed.

End SelectionFacts.

(** X1.  With one keyword, no file is selected by both pipelines, in either
    mode; in OVERWRITE mode a file is selected by one of them exactly when
    its name ends in [.mp4], so the two pipelines split the videos of a tree
    between them. *)
Theorem pipelines_split_the_videos kw f :
  (forall overwrite,
      selected Crop kw overwrite f && selected Transform kw overwrite f = false) /\
  xorb (selected Crop kw true f) (selected Transform kw true f) = is_mp4 f.
Proof.
  split; [intros overwrite|]; rewrite !selected_spec; simpl;
    destruct (is_mp4 f), (Py.contains _ _); simpl; try done.
  by destruct (negb overwrite && is_own_output Crop f).
Qed.

(** X2.  What COPY mode collects is a sub-list, in the same order, of what
    OVERWRITE mode collects from the same listing; the file test of COPY
    mode is that of OVERWRITE mode with the names carrying the suffix taken
    out. *)
Theorem copy_collects_sublist_of_overwrite pl kw :
  (forall entries,
      collect pl kw false entries `sublist_of` collect pl kw true entries) /\
  (forall f,
      selected pl kw false f
        = selected pl kw true f && negb (is_own_output pl f)).
Proof.
  split; [apply collect_mode_sublist|].
  intros f. rewrite !selected_spec. simpl. by rewrite andb_true_r.
Qed.


(** ** Paths of a job *)

Section JobPathFacts.
Import Py Path.

Lemma destination_path_inj pl p q :
  destination_path pl false p = destination_path pl false q -> p = q.
Proof.
  rewrite !destination_path_copy.
  destruct (splitext p) as [bp ep] eqn:Hp, (splitext q) as [bq eq'] eqn:Hq.
  simpl. intros He.
  destruct (suffix_free pl) as (Hs & Hd & _).
  destruct (splitext_infix p bp ep (suffix pl) Hs Hd Hp) as [Hxp _].
  destruct (splitext_infix q bq eq' (suffix pl) Hs Hd Hq) as [Hxq _].
  rewrite He, Hxq in Hxp. injection Hxp as Hb ->.
  apply app_inv_tail in Hb as ->.
  by rewrite <- (splitext_sound _ _ _ Hp), <- (splitext_sound _ _ _ Hq).
Qed.

Lemma temp_prefix_not_dots pl b : all_dots (temp_prefix pl ++ b) = false.
Proof. by destruct pl. Qed.

Lemma temp_path_split E pl p :
  split_last_sep (temp_path E pl true p)
    = (dir_prefix (gettempdir E), temp_prefix pl ++ basename p).
Proof.
  rewrite temp_path_prefix. apply split_last_sep_app; [apply dir_prefix_like|].
  destruct (temp_prefix_shape pl) as [Hfree _].
  pose proof (basename_free p). free_of.
Qed.

Lemma temp_path_ext E pl p :
  (splitext p).2 <> [] ->
  (splitext (temp_path E pl true p)).2 = (splitext p).2.
Proof.
  unfold splitext at 2. rewrite temp_path_split. unfold splitext, basename.
  destruct (split_last_sep p) as [head name]. simpl.
  destruct (rsplit extsep name) as [[b r]|] eqn:Hn; [|done].
  apply rsplit_Some in Hn as [-> Hr].
  rewrite app_assoc, rsplit_app by done.
  fold (all_dots (temp_prefix pl ++ b)). rewrite temp_prefix_not_dots.
  by destruct (forallb _ b).
Qed.

End JobPathFacts.

(** X4.  In COPY mode two different source paths never get the same
    destination, so no job of a batch writes over the output of another. *)
Theorem copy_destinations_are_distinct pl p q :
  p <> q -> destination_path pl false p <> destination_path pl false q.
Proof. intros Hne He. by apply Hne, (destination_path_inj pl). Qed.

Lemma copy_destinations_are_distinct_witness :
  lit "/r/a/x.mp4" <> lit "/r/b/x.mp4" /\
  destination_path Crop false (lit "/r/a/x.mp4")
    <> destination_path Crop false (lit "/r/b/x.mp4").
Proof.
  assert (lit "/r/a/x.mp4" <> lit "/r/b/x.mp4") as Hne by discriminate.
  split; [exact Hne|].
  exact (copy_destinations_are_distinct Crop _ _ Hne).
Defined.

(** X5.  The temporary file of OVERWRITE mode lies directly in the scratch
    directory, its name is the prefix of the pipeline followed by the base
    name of the source, and it has the extension of the source whenever the
    source has one. *)
Theorem temp_file_keeps_name_and_extension E pl p :
  Path.split_last_sep (temp_path E pl true p)
    = (dir_prefix (gettempdir E), temp_prefix pl ++ Path.basename p) /\
  Path.basename (temp_path E pl true p) = temp_prefix pl ++ Path.basename p /\
  ((Path.splitext p).2 <> [] ->
   (Path.splitext (temp_path E pl true p)).2 = (Path.splitext p).2).
Proof.
  split; [apply temp_path_split|]. split; [|apply temp_path_ext].
  unfold Path.basename. by rewrite temp_path_split.
Qed.

Lemma temp_file_keeps_name_and_extension_witness :
  let E := sample_env flaky_tool in
  (Path.splitext (lit "/r/sub/C.MP4")).2 <> [] /\
  (Path.splitext (temp_path E Transform true (lit "/r/sub/C.MP4"))).2 = lit ".MP4".
Proof.
  assert ((Path.splitext (lit "/r/sub/C.MP4")).2 <> []) as Hext by discriminate.
  split; [exact Hext|].
  exact (proj2 (proj2 (temp_file_keeps_name_and_extension
                         (sample_env flaky_tool) Transform (lit "/r/sub/C.MP4")))
               Hext).
Defined.

(** ** What a job does to the files *)

Section JobEffects.
Context (E : env).

(** The files after a job, by outcome of the encoder and mode. *)
Lemma transcode_files pl p overwrite w :
  files (transcode E pl p overwrite w).2 =
    match ffmpeg E (job_command E pl overwrite p) (files w), overwrite with
    | Completed d, true => <[p := d]> (delete (temp_path E pl true p) (files w))
    | Completed d, false => <[destination_path pl false p := d]> (files w)
    | Failed _ _ _, true => delete (temp_path E pl true p) (files w)
    | Failed _ _ (Some d), false => <[destination_path pl false p := d]> (files w)
    | Failed _ _ None, false => files w
    | NotFound, _ => files w
    end.
Proof.
  destruct (ffmpeg E (job_command E pl overwrite p) (files w))
    as [d|rc err partial|] eqn:H.
  - destruct overwrite;
      [by rewrite (job_completed_overwrite _ _ _ _ _ H)
      |by rewrite (job_completed_copy _ _ _ _ _ H)].
  - destruct overwrite;
      [rewrite (job_failed_overwrite _ _ _ _ _ _ _ H); by destruct partial
      |rewrite (job_failed_copy _ _ _ _ _ _ _ H); by destruct partial].
  - rewrite (job_not_found _ _ _ _ _ H). by destruct overwrite.
Qed.

(** A COPY-mode job changes the destination at most. *)
Lemma transcode_frame_copy pl p w q :
  q <> destination_path pl false p ->
  files (transcode E pl p false w).2 !! q = files w !! q.
Proof.
  intros Hq. rewrite transcode_files.
  destruct (ffmpeg E _ _) as [d|rc err [d|]|]; try done;
    by rewrite lookup_insert_ne.
Qed.

(** An OVERWRITE-mode job changes the source and the temporary path at
    most. *)
Lemma transcode_frame_overwrite pl p w q :
  q <> p -> q <> temp_path E pl true p ->
  files (transcode E pl p true w).2 !! q = files w !! q.
Proof.
  intros Hp Ht. rewrite transcode_files.
  destruct (ffmpeg E _ _) as [d|rc err [d|]|]; try done.
  - by rewrite lookup_insert_ne, lookup_delete_ne.
  - by rewrite lookup_delete_ne.
  - by rewrite lookup_delete_ne.
Qed.

(** After an OVERWRITE-mode job that found the encoder, nothing is at the
    temporary path. *)
Lemma transcode_temp_gone pl p w :
  ffmpeg E (job_command E pl true p) (files w) <> NotFound ->
  files (transcode E pl p true w).2 !! temp_path E pl true p = None.
Proof.
  intros Hfound. rewrite transcode_files.
  destruct (ffmpeg E _ _) as [d|rc err [d|]|]; try done.
  - rewrite lookup_insert_ne by (apply not_eq_sym, temp_path_not_source).
    apply lookup_delete_eq.
  - apply lookup_delete_eq.
  - apply lookup_delete_eq.
Qed.

(** The events of a job are those of a run over its path. *)
Lemma transcode_events pl p overwrite w paths :
  p ∈ paths ->
  exists rest,
    log (transcode E pl p overwrite w).2 = log w ++ rest /\
    Forall (job_event E pl overwrite paths) rest.
Proof.
  intros Hp.
  assert (job_event E pl overwrite paths (Run (job_command E pl overwrite p)))
    as Hrun by (by exists p).
  destruct (ffmpeg E (job_command E pl overwrite p) (files w))
    as [d|rc err partial|] eqn:H.
  - destruct overwrite;
      [rewrite (job_completed_overwrite _ _ _ _ _ H)
      |rewrite (job_completed_copy _ _ _ _ _ H)];
      simpl; eexists; (split; [done|]); repeat constructor; try done.
    by exists p.
  - destruct overwrite;
      [rewrite (job_failed_overwrite _ _ _ _ _ _ _ H)
      |rewrite (job_failed_copy _ _ _ _ _ _ _ H)];
      simpl; eexists; (split; [done|]);
      try destruct (temp_present _ _ _); repeat constructor; try done.
    by exists p.
  - rewrite (job_not_found _ _ _ _ _ H). simpl.
    eexists; (split; [done|]); repeat constructor; done.
Qed.

End JobEffects.

(** X6.  A COPY-mode job whose encoder call exits with status 0 puts the
    output at the destination, replacing whatever was there, and leaves the
    source and every other path as they were; nothing is moved or
    removed. *)
Theorem copy_success_adds_output E pl p w d :
  ffmpeg E (job_command E pl false p) (files w) = Completed d ->
  exists w',
    transcode E pl p false w = (inr tt, w') /\
    files w' !! destination_path pl false p = Some d /\
    files w' !! p = files w !! p /\
    (forall q, q <> destination_path pl false p -> files w' !! q = files w !! q) /\
    log w' = log w ++ [processing_line p; Run (job_command E pl false p);
                       success_line pl false (destination_path pl false p)].
Proof.
  intros H. eexists. split; [by apply job_completed_copy|]. simpl.
  assert (p <> destination_path pl false p) as Hne.
  { apply not_eq_sym, destination_path_not_source. }
  split; [apply lookup_insert_eq|]. split; [by apply lookup_insert_ne|].
  split; [|done]. intros q Hq. by apply lookup_insert_ne.
Qed.

Lemma copy_success_adds_output_witness :
  let E := sample_env flaky_tool in
  let p := lit "/r/sub/C.MP4" in
  ffmpeg E (job_command E Crop false p) (files sample_world)
    = Completed (lit "video") /\
  exists w',
    transcode E Crop p false sample_world = (inr tt, w') /\
    files w' !! lit "/r/sub/C_cropped.MP4" = Some (lit "video") /\
    files w' !! p = files sample_world !! p.
Proof.
  split; [reflexivity|].
  destruct (copy_success_adds_output (sample_env flaky_tool) Crop
              (lit "/r/sub/C.MP4") sample_world (lit "video") eq_refl)
    as (w' & Hrun & Hdest & Hsrc & _).
  exists w'. by repeat split.
Defined.

(** X7.  A COPY-mode job whose encoder call exits with a non-zero status
    ends normally and removes nothing: what the encoder left at the
    destination stays there, and every other path is as it was. *)
Theorem copy_failure_leaves_partial_output E pl p w rc err partial :
  ffmpeg E (job_command E pl false p) (files w) = Failed rc err partial ->
  exists w',
    transcode E pl p false w = (inr tt, w') /\
    files w' !! destination_path pl false p
      = match partial with
        | Some d => Some d
        | None => files w !! destination_path pl false p
        end /\
    (forall q, q <> destination_path pl false p -> files w' !! q = files w !! q) /\
    log w' = log w ++ [processing_line p; Run (job_command E pl false p)]
               ++ failure_lines p rc err.
Proof.
  intros H. eexists. split; [by apply job_failed_copy|]. simpl.
  split; [|split; [|done]].
  - destruct partial; [apply lookup_insert_eq|done].
  - intros q Hq. destruct partial; [by apply lookup_insert_ne|done].
Qed.

Lemma copy_failure_leaves_partial_output_witness :
  let E := sample_env flaky_tool in
  let p := lit "/r/a.mp4" in
  ffmpeg E (job_command E Crop false p) (files sample_world)
    = Failed 1 (lit "Invalid data found when processing input") (Some (lit "junk")) /\
  exists w',
    transcode E Crop p false sample_world = (inr tt, w') /\
    files sample_world !! lit "/r/a_cropped.mp4" = Some (lit "original") /\
    files w' !! lit "/r/a_cropped.mp4" = Some (lit "junk").
Proof.
  split; [reflexivity|].
  destruct (copy_failure_leaves_partial_output (sample_env flaky_tool) Crop
              (lit "/r/a.mp4") sample_world 1
              (lit "Invalid data found when processing input")
              (Some (lit "junk")) eq_refl)
    as (w' & Hrun & Hdest & _).
  exists w'. split; [done|]. split; [reflexivity|exact Hdest].
Defined.

(** X8.  An OVERWRITE-mode job that finds the encoder leaves nothing at the
    temporary path, whatever was there before and whether the call
    succeeded; it changes no path but the source and the temporary path,
    and the source holds the output when the call exits with status 0. *)
Theorem overwrite_job_clears_temp E pl p w :
  ffmpeg E (job_command E pl true p) (files w) <> NotFound ->
  let w' := (transcode E pl p true w).2 in
  files w' !! temp_path E pl true p = None /\
  (forall q, q <> p -> q <> temp_path E pl true p -> files w' !! q = files w !! q) /\
  (forall d,
      ffmpeg E (job_command E pl true p) (files w) = Completed d ->
      files w' !! p = Some d).
Proof.
  intros Hfound. simpl. split; [by apply transcode_temp_gone|].
  split; [intros q; apply transcode_frame_overwrite|].
  intros d H. rewrite transcode_files, H. apply lookup_insert_eq.
Qed.

Lemma overwrite_job_clears_temp_witness :
  let E := sample_env flaky_tool in
  let p := lit "/r/sub/C.MP4" in
  let w := {| files := <[lit "/tmp/temp_C.MP4" := lit "stray"]> (files sample_world);
              log := [] |} in
  ffmpeg E (job_command E Transform true p) (files w) <> NotFound /\
  files w !! temp_path E Transform true p = Some (lit "stray") /\
  files (transcode E Transform p true w).2 !! temp_path E Transform true p = None.
Proof.
  assert (forall cmd fs, flaky_tool cmd fs <> NotFound) as Hfound.
  { intros cmd fs. unfold flaky_tool. by case_decide. }
  split; [apply Hfound|]. split; [reflexivity|].
  exact (proj1 (overwrite_job_clears_temp (sample_env flaky_tool) Transform
                  (lit "/r/sub/C.MP4") _ (Hfound _ _))).
Defined.

(** X9.  Whatever comes of it, a job calls the encoder exactly once: the
    argument after [-i] is the source path and the last argument, where the
    encoder writes, is the temporary path in OVERWRITE mode and the
    destination in COPY mode. *)
Theorem job_calls_encoder_once E pl p overwrite w :
  attempts (log (transcode E pl p overwrite w).2)
    = attempts (log w) ++ [job_command E pl overwrite p] /\
  input_of (job_command E pl overwrite p) = p /\
  List.last (job_command E pl overwrite p) []
    = (if overwrite then temp_path E pl true p else destination_path pl false p).
Proof.
  split; [apply transcode_attempts|]. unfold job_command.
  rewrite input_of_command, last_command. split; [done|].
  destruct overwrite; [done|].
  unfold temp_path. by rewrite output_paths_copy, destination_path_copy.
Qed.

(** ** What a run does to the files *)

Section RunEffects.
Context (E : env).

Lemma batch_frame_copy pl paths w q :
  (forall p, p ∈ paths -> q <> destination_path pl false p) ->
  files (batch E pl false paths w).2 !! q = files w !! q.
Proof.
  revert w. induction paths as [|p paths IH]; intros w Hq; [done|].
  rewrite batch_cons.
  pose proof (transcode_frame_copy E pl p w q (Hq p ltac:(by left))) as Hp.
  destruct (transcode E pl p false w) as [[e|[]] w1]; simpl in Hp; [done|].
  rewrite IH; [done|]. intros p' Hp'. apply Hq. by right.
Qed.

Lemma batch_frame_overwrite pl paths w q :
  q ∉ paths ->
  (forall p, p ∈ paths -> q <> temp_path E pl true p) ->
  files (batch E pl true paths w).2 !! q = files w !! q.
Proof.
  revert w. induction paths as [|p paths IH]; intros w Hsrc Htmp; [done|].
  apply not_elem_of_cons in Hsrc as [Hne Hsrc].
  rewrite batch_cons.
  pose proof (transcode_frame_overwrite E pl p w q Hne (Htmp p ltac:(by left)))
    as Hp.
  destruct (transcode E pl p true w) as [[e|[]] w1]; simpl in Hp; [done|].
  rewrite IH; [done|done|]. intros p' Hp'. apply Htmp. by right.
Qed.

Lemma batch_events pl overwrite paths all w :
  (forall p, p ∈ paths -> p ∈ all) ->
  exists rest,
    log (batch E pl overwrite paths w).2 = log w ++ rest /\
    Forall (job_event E pl overwrite all) rest.
Proof.
  revert w. induction paths as [|p paths IH]; intros w Hall.
  - exists []. simpl. split; [by rewrite app_nil_r|constructor].
  - rewrite batch_cons.
    destruct (transcode_events E pl p overwrite w all (Hall p ltac:(by left)))
      as (r1 & Hr1 & He1).
    destruct (transcode E pl p overwrite w) as [[e|[]] w1]; simpl in Hr1.
    + by exists r1.
    + destruct (IH w1) as (r2 & Hr2 & He2).
      { intros p' Hp'. apply Hall. by right. }
      exists (r1 ++ r2). rewrite Hr2, Hr1, <- app_assoc. split; [done|].
      by apply Forall_app.
Qed.


(** With the encoder installed and no temporary path among the sources, an
    OVERWRITE-mode loop leaves nothing at the temporary path of any of its
    paths. *)
Lemma batch_temps_gone pl paths w :
  (forall p fs, p ∈ paths -> ffmpeg E (job_command E pl true p) fs <> NotFound) ->
  (forall p q, p ∈ paths -> q ∈ paths -> temp_path E pl true p <> q) ->
  forall p, p ∈ paths ->
            files (batch E pl true paths w).2 !! temp_path E pl true p = None.
Proof.
  revert w. induction paths as [|p0 paths IH]; intros w Hfound Hdisj p Hp.
  { by apply elem_of_nil in Hp. }
  rewrite batch_cons.
  pose proof (transcode_temp_gone E pl p0 w (Hfound p0 _ ltac:(by left))) as Hgone.
  pose proof (transcode_result E pl p0 true w) as Hr.
  pose proof (Hfound p0 (files w) ltac:(by left)) as Hf0.
  destruct (transcode E pl p0 true w) as [r w1]. simpl in Hgone, Hr.
  assert (r = inr tt) as -> by (rewrite Hr; by destruct (ffmpeg E _ _)).
  assert (forall q, q ∈ paths ->
                    files (batch E pl true paths w1).2 !! temp_path E pl true q = None)
    as Hrest.
  { apply IH.
    - intros q fs Hq. apply Hfound. by right.
    - intros q q' Hq Hq'. apply Hdisj; by right. }
  destruct (decide (p ∈ paths)) as [Hin|Hnin]; [by apply Hrest|].
  apply elem_of_cons in Hp as [->|Hp]; [|done].
  destruct (decide (Exists (fun q => temp_path E pl true p0 = temp_path E pl true q)
                           paths)) as [Hex|Hnex].
  - apply Exists_exists in Hex as (q & Hq & ->). by apply Hrest.
  - rewrite batch_frame_overwrite; [done| |].
    + intros Hsrc. apply (Hdisj p0 (temp_path E pl true p0)); [by left|by right|done].
    + intros q Hq He. apply Hnex, Exists_exists. by exists q.
Qed.

(** The files after a run are those after its loop. *)
Lemma find_and_run_files pl root kw overwrite w t :
  directory E (files w) root = Some t ->
  exists w0,
    files w0 = files w /\
    files (find_and_run E pl root kw overwrite w).2
      = files (batch E pl overwrite (collect pl kw overwrite (walk root t)) w0).2.
Proof.
  intros Hdir.
  rewrite (find_and_run_directory E pl root kw overwrite w t Hdir). cbv zeta.
  case_decide as Hnil.
  - exists w. rewrite Hnil. by split.
  - exists (emit (found_line (length (collect pl kw overwrite (walk root t))))
              (log_more (header pl root kw overwrite) w)).
    split; [done|].
    by destruct (batch E pl overwrite _ _) as [[e|[]] w1].
Qed.

(** The events of a run after its header are those of its jobs, and the
    closing lines. *)
Lemma find_and_run_events pl root kw overwrite w t :
  directory E (files w) root = Some t ->
  exists rest,
    log (find_and_run E pl root kw overwrite w).2
      = log w ++ header pl root kw overwrite ++ rest /\
    Forall (job_event E pl overwrite (collect pl kw overwrite (walk root t))) rest.
Proof.
  intros Hdir.
  rewrite (find_and_run_directory E pl root kw overwrite w t Hdir). cbv zeta.
  case_decide as Hnil.
  - exists [no_match_line pl]. cbn [snd emit log_more log].
    split; [by rewrite <- app_assoc|]. by repeat constructor.
  - set (paths := collect pl kw overwrite (walk root t)) in *.
    set (w0 := emit (found_line (length paths))
                 (log_more (header pl root kw overwrite) w)).
    destruct (batch_events pl overwrite paths paths w0) as (rest & Hlog & Hev);
      [done|].
    assert (log w0 = log w ++ header pl root kw overwrite
                       ++ [found_line (length paths)]) as Hl0.
    { unfold w0, emit, log_more. cbn [log]. by rewrite <- app_assoc. }
    destruct (batch E pl overwrite paths w0) as [[e|[]] w1]; cbn [snd fst] in *.
    + exists ([found_line (length paths)] ++ rest).
      rewrite Hlog, Hl0. split; [by rewrite <- !app_assoc|].
      apply Forall_app. split; [by repeat constructor|done].
    + exists ([found_line (length paths)] ++ rest ++ [complete_line]).
      unfold emit at 1. cbn [log].
      rewrite Hlog, Hl0. split; [by rewrite <- !app_assoc|].
      rewrite !Forall_app. repeat split; [by repeat constructor|done|].
      by repeat constructor.
Qed.

End RunEffects.

(** X10.  Over a directory in which no file passes the file test, an entry
    point prints its header and the no-match line and ends normally: the
    encoder is not called and the files are as they were. *)
Theorem no_candidates_no_calls E pl root kw overwrite w t :
  directory E (files w) root = Some t ->
  collect pl kw overwrite (walk root t) = [] ->
  find_and_run E pl root kw overwrite w =
    (inr tt,
     {| files := files w;
        log := log w ++ header pl root kw overwrite ++ [no_match_line pl] |}) /\
  attempts (header pl root kw overwrite ++ [no_match_line pl]) = [].
Proof.
  intros Hdir Hnil.
  rewrite (find_and_run_directory E pl root kw overwrite w t Hdir). cbv zeta.
  rewrite Hnil, decide_True by done. split.
  - f_equal. apply world_eq; [done|]. simpl. by rewrite <- app_assoc.
  - by rewrite attempts_app, attempts_header.
Qed.

Lemma no_candidates_no_calls_witness :
  let E := sample_env missing_tool in
  find_and_run E Transform (lit "/r") (lit "zebra") true sample_world =
    (inr tt,
     {| files := files sample_world;
        log := header Transform (lit "/r") (lit "zebra") true
                 ++ [no_match_line Transform] |}).
Proof.
  exact (proj1 (no_candidates_no_calls (sample_env missing_tool) Transform
                  (lit "/r") (lit "zebra") true sample_world sample_tree
                  eq_refl eq_refl)).
Defined.

(** X11.  A COPY-mode run changes no path but the destinations of the paths
    it collected; in a well-formed tree every collected source holds at the
    end what it held at the start, whatever the encoder did. *)
Theorem copy_run_changes_only_destinations E pl root kw w t :
  directory E (files w) root = Some t ->
  let paths := collect pl kw false (walk root t) in
  let w' := (find_and_run E pl root kw false w).2 in
  (forall q,
      (forall p, p ∈ paths -> q <> destination_path pl false p) ->
      files w' !! q = files w !! q) /\
  (tree_ok t -> forall p, p ∈ paths -> files w' !! p = files w !! p).
Proof.
  intros Hdir paths w'.
  destruct (find_and_run_files E pl root kw false w t Hdir) as (w0 & Hw0 & Hw').
  fold paths w' in Hw'.
  assert (forall q,
             (forall p, p ∈ paths -> q <> destination_path pl false p) ->
             files w' !! q = files w !! q) as Hframe.
  { intros q Hq. rewrite Hw', <- Hw0. by apply batch_frame_copy. }
  split; [done|]. intros Hok p Hp. apply Hframe. intros p' Hp' ->.
  by apply (destination_not_collected pl kw root t p' Hok Hp').
Qed.

Lemma copy_run_changes_only_destinations_witness :
  let E := sample_env flaky_tool in
  let w' := (find_and_run E Crop (lit "/r") (lit "motion") false sample_world).2 in
  tree_ok sample_tree /\
  files w' !! lit "/r/a.mp4" = Some (lit "original").
Proof.
  split; [exact sample_tree_ok|].
  refine (proj2 (copy_run_changes_only_destinations (sample_env flaky_tool) Crop
                   (lit "/r") (lit "motion") sample_world sample_tree eq_refl)
                sample_tree_ok (lit "/r/a.mp4") _).
  by left.
Defined.

(** X12.  An OVERWRITE-mode run changes no path but the paths it collected
    and their temporary paths. *)
Theorem overwrite_run_changes_only_sources_and_temps E pl root kw w t :
  directory E (files w) root = Some t ->
  let paths := collect pl kw true (walk root t) in
  let w' := (find_and_run E pl root kw true w).2 in
  forall q,
    q ∉ paths ->
    (forall p, p ∈ paths -> q <> temp_path E pl true p) ->
    files w' !! q = files w !! q.
Proof.
  intros Hdir paths w' q Hsrc Htmp.
  destruct (find_and_run_files E pl root kw true w t Hdir) as (w0 & Hw0 & Hw').
  fold paths w' in Hw'. rewrite Hw', <- Hw0. by apply batch_frame_overwrite.
Qed.

Lemma overwrite_run_changes_only_sources_and_temps_witness :
  let E := sample_env flaky_tool in
  let w' := (find_and_run E Crop (lit "/r") (lit "motion") true sample_world).2 in
  files w' !! lit "/r/a_motion.mp4" = Some (lit "original").
Proof.
  refine (overwrite_run_changes_only_sources_and_temps (sample_env flaky_tool)
            Crop (lit "/r") (lit "motion") sample_world sample_tree eq_refl
            (lit "/r/a_motion.mp4") _ _).
  - change (lit "/r/a_motion.mp4"
              ∉ [lit "/r/a.mp4"; lit "/r/a_cropped.mp4"; lit "/r/sub/C.MP4"]).
    rewrite !not_elem_of_cons.
    repeat split; first [discriminate | apply not_elem_of_nil].
  - change (forall p,
               p ∈ [lit "/r/a.mp4"; lit "/r/a_cropped.mp4"; lit "/r/sub/C.MP4"] ->
               lit "/r/a_motion.mp4"
                 <> temp_path (sample_env flaky_tool) Crop true p).
    intros p Hp. repeat (apply elem_of_cons in Hp as [->|Hp]; [discriminate|]).
    by apply elem_of_nil in Hp.
Defined.

(** X13.  After its header, a run walks nothing, calls the encoder only with
    the commands of collected paths, and moves or removes only the temporary
    file of a collected path, the move going onto that path; in COPY mode
    it moves and removes nothing at all. *)
Theorem run_events_are_job_events E pl root kw overwrite w t :
  directory E (files w) root = Some t ->
  exists rest,
    log (find_and_run E pl root kw overwrite w).2
      = log w ++ header pl root kw overwrite ++ rest /\
    Forall (job_event E pl overwrite (collect pl kw overwrite (walk root t))) rest /\
    (overwrite = false ->
     forall e, e ∈ rest ->
               (forall src dst, e <> Move src dst) /\ (forall q, e <> Remove q)).
Proof.
  intros Hdir.
  destruct (find_and_run_events E pl root kw overwrite w t Hdir)
    as (rest & Hlog & Hev).
  exists rest. split; [done|]. split; [done|].
  intros -> e He. rewrite Forall_forall in Hev. specialize (Hev e He).
  split; [intros src dst ->|intros q ->]; by destruct Hev.
Qed.

Lemma run_events_are_job_events_witness :
  let E := sample_env flaky_tool in
  exists rest,
    log (find_and_run E Crop (lit "/r") (lit "motion") true sample_world).2
      = header Crop (lit "/r") (lit "motion") true ++ rest /\
    Forall (job_event E Crop true
              [lit "/r/a.mp4"; lit "/r/a_cropped.mp4"; lit "/r/sub/C.MP4"]) rest.
Proof.
  destruct (run_events_are_job_events (sample_env flaky_tool) Crop (lit "/r")
              (lit "motion") true sample_world sample_tree eq_refl)
    as (rest & Hlog & Hev & _).
  by exists rest.
Defined.

(** X14.  With the encoder installed, and no temporary path among the
    collected paths, an OVERWRITE-mode run leaves no file at the temporary
    path of any collected path, whether the calls succeeded or failed. *)
Theorem overwrite_run_leaves_no_temp E pl root kw w t :
  directory E (files w) root = Some t ->
  (forall cmd fs, ffmpeg E cmd fs <> NotFound) ->
  let paths := collect pl kw true (walk root t) in
  (forall p q, p ∈ paths -> q ∈ paths -> temp_path E pl true p <> q) ->
  forall p,
    p ∈ paths ->
    files (find_and_run E pl root kw true w).2 !! temp_path E pl true p = None.
Proof.
  intros Hdir Hfound paths Hdisj p Hp.
  destruct (find_and_run_files E pl root kw true w t Hdir) as (w0 & Hw0 & Hw').
  fold paths in Hw'. rewrite Hw'.
  apply batch_temps_gone; [|done|done]. intros q fs _. apply Hfound.
Qed.

Lemma overwrite_run_leaves_no_temp_witness :
  let E := sample_env flaky_tool in
  let w := {| files := <[lit "/tmp/temp_crop_a.mp4" := lit "stray"]>
                         (files sample_world);
              log := [] |} in
  files w !! temp_path E Crop true (lit "/r/a.mp4") = Some (lit "stray") /\
  files (find_and_run E Crop (lit "/r") (lit "motion") true w).2
    !! temp_path E Crop true (lit "/r/a.mp4") = None.
Proof.
  split; [reflexivity|].
  refine (overwrite_run_leaves_no_temp (sample_env flaky_tool) Crop (lit "/r")
            (lit "motion") _ sample_tree eq_refl _ _ (lit "/r/a.mp4") _).
  - intros cmd fs. unfold sample_env, flaky_tool. simpl. by case_decide.
  - change (forall p q,
               p ∈ [lit "/r/a.mp4"; lit "/r/a_cropped.mp4"; lit "/r/sub/C.MP4"] ->
               q ∈ [lit "/r/a.mp4"; lit "/r/a_cropped.mp4"; lit "/r/sub/C.MP4"] ->
               temp_path (sample_env flaky_tool) Crop true p <> q).
    intros p q Hp Hq.
    repeat (apply elem_of_cons in Hp as [->|Hp];
            [repeat (apply elem_of_cons in Hq as [->|Hq]; [discriminate|]);
             by apply elem_of_nil in Hq|]).
    by apply elem_of_nil in Hp.
  - by left.
Defined.


(** ** Where a run writes *)

Section Confinement.
Import Py Path.



(** The directory of every file of a tree lies at or below its top. *)
Lemma file_entries_dir_below top t d f :
  tree_ok t -> (d, f) ∈ file_entries top t ->
  exists x, dir_prefix d = dir_prefix top ++ x.
Proof.
  revert top. induction t as [filenames dirs IH] using tree_ind.
  intros top (_ & _ & Hd & _ & Hsub)%tree_ok_Dir.
  rewrite file_entries_Dir, elem_of_app. intros [Hin|Hin].
  - apply elem_of_map in Hin as (f' & [= -> _] & _). exists []. by rewrite app_nil_r.
  - apply elem_of_flat_map in Hin as ([d' sub] & Hds & Hin). simpl in Hin.
    rewrite Forall_forall in IH. rewrite Forall_forall in Hsub.
    rewrite Forall_forall in Hd.
    destruct (IH _ Hds (join top d') (Hsub _ Hds) Hin) as (x & ->).
    assert (name_ok d') as Hok by (apply Hd, elem_of_map; by exists (d', sub)).
    rewrite dir_prefix_join by done. exists (d' ++ [sep] ++ x).
    by rewrite <- !app_assoc.
Qed.

(** A collected path and its COPY-mode destination begin with the prefix of
    the root. *)
Lemma collected_below_root pl kw overwrite top t p :
  tree_ok t -> p ∈ collect pl kw overwrite (walk top t) ->
  startswith p (dir_prefix top) = true /\
  startswith (destination_path pl false p) (dir_prefix top) = true.
Proof.
  intros Hok (d & f & Hin & -> & _)%collect_elem.
  destruct (file_entries_names _ _ _ _ Hok Hin) as [_ Hf].
  destruct (file_entries_dir_below _ _ _ _ Hok Hin) as (x & Hx).
  rewrite destination_join by done.
  rewrite !join_dir_prefix by (done || by apply output_name_free).
  rewrite Hx, <- !app_assoc. split; apply startswith_spec; by eexists.
Qed.

Lemma temp_path_shape E pl p :
  startswith (temp_path E pl true p) (dir_prefix (gettempdir E) ++ temp_prefix pl)
    = true.
Proof.
  rewrite temp_path_prefix, app_assoc. apply startswith_spec. by eexists.
Qed.

End Confinement.


(** X17.  In a well-formed tree every collected path, and its COPY-mode
    destination, begins with the root followed by a separator; so a
    COPY-mode run changes no path that does not begin so. *)
Theorem copy_run_stays_below_root E pl root kw w t :
  directory E (files w) root = Some t ->
  tree_ok t ->
  let paths := collect pl kw false (walk root t) in
  let w' := (find_and_run E pl root kw false w).2 in
  (forall p,
      p ∈ paths ->
      Py.startswith p (dir_prefix root) = true /\
      Py.startswith (destination_path pl false p) (dir_prefix root) = true) /\
  (forall q,
      Py.startswith q (dir_prefix root) = false -> files w' !! q = files w !! q).
Proof.
  intros Hdir Hok paths w'.
  split; [intros p; by apply collected_below_root|].
  intros q Hq.
  destruct (find_and_run_files E pl root kw false w t Hdir) as (w0 & Hw0 & Hw').
  fold paths w' in Hw'. rewrite Hw', <- Hw0. apply batch_frame_copy.
  intros p Hp ->.
  destruct (collected_below_root pl kw false root t p Hok Hp) as [_ Hd].
  by rewrite Hd in Hq.
Qed.

Lemma copy_run_stays_below_root_witness :
  let E := sample_env flaky_tool in
  let w := {| files := <[lit "/home/x.mp4" := lit "mine"]> (files sample_world);
              log := [] |} in
  tree_ok sample_tree /\
  Py.startswith (lit "/home/x.mp4") (dir_prefix (lit "/r")) = false /\
  files (find_and_run E Crop (lit "/r") (lit "motion") false w).2
    !! lit "/home/x.mp4" = Some (lit "mine").
Proof.
  split; [exact sample_tree_ok|]. split; [reflexivity|].
  exact (proj2 (copy_run_stays_below_root (sample_env flaky_tool) Crop (lit "/r")
                  (lit "motion") _ sample_tree eq_refl sample_tree_ok)
               (lit "/home/x.mp4") eq_refl).
Defined.

(** X18.  In a well-formed tree an OVERWRITE-mode run changes no path but
    those that begin with the root followed by a separator and those that
    begin with the scratch directory, a separator and the prefix of the
    pipeline. *)
Theorem overwrite_run_stays_in_root_and_scratch E pl root kw w t :
  directory E (files w) root = Some t ->
  tree_ok t ->
  forall q,
    Py.startswith q (dir_prefix root) = false ->
    Py.startswith q (dir_prefix (gettempdir E) ++ temp_prefix pl) = false ->
    files (find_and_run E pl root kw true w).2 !! q = files w !! q.
Proof.
  intros Hdir Hok q Hroot Htmp.
  destruct (find_and_run_files E pl root kw true w t Hdir) as (w0 & Hw0 & Hw').
  rewrite Hw', <- Hw0. apply batch_frame_overwrite.
  - intros Hq.
    destruct (collected_below_root pl kw true root t q Hok Hq) as [Hb _].
    by rewrite Hb in Hroot.
  - intros p _ ->. by rewrite temp_path_shape in Htmp.
Qed.

Lemma overwrite_run_stays_in_root_and_scratch_witness :
  let E := sample_env flaky_tool in
  let w := {| files := <[lit "/home/x.mp4" := lit "mine"]> (files sample_world);
              log := [] |} in
  tree_ok sample_tree /\
  files (find_and_run E Transform (lit "/r") (lit "motion") true w).2
    !! lit "/home/x.mp4" = Some (lit "mine").
Proof.
  split; [exact sample_tree_ok|].
  exact (overwrite_run_stays_in_root_and_scratch (sample_env flaky_tool) Transform
           (lit "/r") (lit "motion") _ sample_tree eq_refl sample_tree_ok
           (lit "/home/x.mp4") eq_refl eq_refl).
Defined.

(** ** The name of a COPY-mode output *)

Section OutputNames.
Import Py Path.

Lemma output_without_extension pl f :
  (splitext f).2 = [] -> is_mp4 (output_name pl f) = false.
Proof.
  intros Hext. unfold is_mp4. rewrite output_name_eq, Hext, app_nil_r.
  apply suffix_not_mp4.
Qed.

Lemma output_with_extension pl f :
  is_mp4 f = true -> (splitext f).2 <> [] ->
  lower (output_name pl f) = lower (splitext f).1 ++ suffix pl ++ lit ".mp4".
Proof.
  unfold is_mp4. rewrite output_name_eq.
  destruct (splitext f) as [base ext] eqn:Hf. simpl.
  pose proof (splitext_sound _ _ _ Hf) as Hsound.
  destruct (splitext_ext_shape _ _ _ Hf) as [->|(r & -> & Hr)]; [done|].
  intros Hm _. apply endswith_spec in Hm as [h Hm].
  rewrite <- Hsound, lower_app in Hm. simpl in Hm.
  change (lower_char extsep) with extsep in Hm.
  change (lit ".mp4") with (extsep :: lit "mp4") in Hm.
  apply last_split_unique in Hm as [_ Hr'];
    [|by apply lower_free_dot|cbv [lit list_ascii_of_string]; free_of].
  rewrite !lower_app. simpl.
  change (lower_char extsep) with extsep. by rewrite lower_suffix, Hr'.
Qed.

End OutputNames.

(** X19.  For a file the COPY-mode scanner selects, the output name is
    itself a [.mp4] name, carrying the suffix before the extension of the
    source, exactly when [splitext] finds an extension in the source name;
    for a name like [.mp4], in which it finds none, the output name ends in
    the suffix and is no [.mp4] name. *)
Theorem output_is_video_when_source_has_extension pl kw f :
  selected pl kw false f = true ->
  ((Path.splitext f).2 = [] ->
   output_name pl f = f ++ suffix pl /\ is_mp4 (output_name pl f) = false) /\
  ((Path.splitext f).2 <> [] ->
   is_mp4 (output_name pl f) = true /\
   is_own_output pl (output_name pl f) = true /\
   (Path.splitext (output_name pl f)).2 = (Path.splitext f).2).
Proof.
  intros Hsel. rewrite selected_spec in Hsel.
  apply andb_true_iff in Hsel as [[Hm _]%andb_true_iff _].
  split.
  - intros Hext. split; [|by apply output_without_extension].
    rewrite output_name_eq, Hext, app_nil_r. f_equal.
    destruct (Path.splitext f) as [base ext] eqn:Hf. simpl in *. subst ext.
    apply splitext_sound in Hf. by rewrite app_nil_r in Hf.
  - intros Hext.
    pose proof (output_with_extension pl f Hm Hext) as Hlow.
    split; [|split].
    + apply endswith_spec. exists (Py.lower (Path.splitext f).1 ++ suffix pl).
      by rewrite Hlow, <- app_assoc.
    + apply endswith_spec. by exists (Py.lower (Path.splitext f).1).
    + unfold output_name.
      by destruct (splitext_destination pl f) as [-> _].
Qed.

Lemma output_is_video_when_source_has_extension_witness :
  selected Crop (lit "motion") false (lit ".mp4") = true /\
  (Path.splitext (lit ".mp4")).2 = [] /\
  output_name Crop (lit ".mp4") = lit ".mp4_cropped" /\
  is_mp4 (output_name Crop (lit ".mp4")) = false.
Proof.
  split; [reflexivity|]. split; [reflexivity|].
  exact (proj1 (output_is_video_when_source_has_extension Crop (lit "motion")
                  (lit ".mp4") eq_refl) eq_refl).
Defined.
